(** * WaveshareEpaperPhotoframe: palette loading, nearest-colour remapping,
      edge overlay and the crop layout of [process_image]

    A shallow embedding of the Python scripts [dither.py] and
    [vitrail_o3.py], with the batch conversion of [diterrepo.py] and the
    label search of [vitrail-deepseek.py].  Bytes are [Byte.byte]; numpy's [int16] arithmetic is
    written on [Z] with its wrap-around; Python's [float] is IEEE binary64,
    taken from the standard library's executable specification
    ([SpecFloat], precision 53, exponent bound 1024); exceptions are an
    error monad.

    Part I is the model, function by function.  Part II proves the
    properties: the palette loaders, the remapping on the nearest colour
    (where the [int16] squares wrap around), the edge overlay, the error
    of the binary64 operations (relative error at most [2 ^ -52] for the
    division and the product), and from it the proportional height and the
    crop positions of [process_image] for sizes within the exact range of
    a double.  Part III adds further properties of the same functions, of
    the batch conversion and of the label search. *)

From Stdlib Require Import ZArith List Bool Lia String Ascii Sorted.
From Stdlib Require Import Strings.Byte DecimalString DecimalNat.
From Stdlib Require Import Floats.SpecFloat.
From coqutil Require Import Byte.
Import ListNotations.

Local Open Scope Z_scope.

(** Python's [len] on a list. *)
Abbreviation len := (@List.length _).

(* ===================================================================== *)
(** * Part I: the model                                                   *)
(* ===================================================================== *)

(** ** Exceptions *)

(** The Python exceptions the modelled code can raise. *)
Inductive exn : Set :=
| ValueError
| ZeroDivisionError
| OverflowError
| IndexError.

Inductive result (A : Type) : Type :=
| Ok (a : A)
| Raise (e : exn).

Arguments Ok {A} a.
Arguments Raise {A} e.

Definition bind {A B : Type} (r : result A) (k : A -> result B) : result B :=
  match r with
  | Ok a => k a
  | Raise e => Raise e
  end.

Notation "x <- r ;; k" := (bind r (fun x => k))
  (at level 61, r at next level, right associativity).

(** ** Palette files *)

(** A colour is three [uint8] channels, in the order the file or the image
    stores them. *)
Definition color : Type := byte * byte * byte.

(** [dither.py], [load_act_palette]: at least 768 bytes are required and
    only the first 768 are kept, as a flat list R, G, B, R, G, B, ... *)
Definition load_act_palette (data : list byte) : result (list byte) :=
  if (len data <? 768)%nat then Raise ValueError
  else Ok (firstn 768 data).

(** [ndarray.reshape((rows, 3))] of a flat buffer: row [i] holds the
    elements [3i], [3i+1], [3i+2]. *)
Fixpoint reshape {A : Type} (rows : nat) (data : list A) : list (A * A * A) :=
  match rows, data with
  | S n, a :: b :: c :: rest => (a, b, c) :: reshape n rest
  | _, _ => []
  end.

(** [vitrail_o3.py], [load_palette]: a 772-byte file loses its last four
    bytes; then the length must be a multiple of 3. *)
Definition load_palette (data : list byte) : result (list color) :=
  let data := if (len data =? 772)%nat then firstn 768 data else data in
  if negb (len data mod 3 =? 0)%nat then Raise ValueError
  else
    let num_colors := (len data / 3)%nat in
    Ok (reshape num_colors data).

(** [Image.putpalette] reads the flat list of [load_act_palette] as
    consecutive RGB triples. *)
Definition putpalette (palette : list byte) : list color :=
  reshape (len palette / 3) palette.

(** ** Nearest-colour remapping ([vitrail_o3.py], [apply_palette]) *)

(** Two's-complement wrap-around of a [w]-bit signed integer. *)
Definition wrap_signed (w : Z) (z : Z) : Z :=
  (z + 2 ^ (w - 1)) mod 2 ^ w - 2 ^ (w - 1).

Definition int16 : Z -> Z := wrap_signed 16.
Definition int64 : Z -> Z := wrap_signed 64.

(** [.astype(np.int16)] of a [uint8] channel. *)
Definition astype_int16 (b : byte) : Z := int16 (byte.unsigned b).

(** [.astype(np.uint8)] of an [int16] channel. *)
Definition astype_uint8 (z : Z) : byte := byte.of_Z z.

Definition color16 : Type := Z * Z * Z.

Definition color_astype_int16 (c : color) : color16 :=
  let '(c0, c1, c2) := c in (astype_int16 c0, astype_int16 c1, astype_int16 c2).

Definition color_astype_uint8 (c : color16) : color :=
  let '(c0, c1, c2) := c in (astype_uint8 c0, astype_uint8 c1, astype_uint8 c2).

(** [diff = pixel - entry], an [int16] array. *)
Definition diff (p q : color16) : color16 :=
  let '(p0, p1, p2) := p in
  let '(q0, q1, q2) := q in
  (int16 (p0 - q0), int16 (p1 - q1), int16 (p2 - q2)).

(** [diff ** 2] stays [int16]: the square wraps around. *)
Definition square16 (d : Z) : Z := int16 (d * d).

(** [np.sum(diff ** 2, axis=2)]: the three wrapped squares are added in the
    platform integer. *)
Definition distance (p q : color16) : Z :=
  let '(d0, d1, d2) := diff p q in
  int64 (int64 (square16 d0 + square16 d1) + square16 d2).

(** [np.argmin] over one row: the first index of the least value. *)
Fixpoint argmin_from (best_i : nat) (best : Z) (i : nat) (row : list Z) : nat :=
  match row with
  | [] => best_i
  | x :: rest =>
      if x <? best then argmin_from i x (S i) rest
      else argmin_from best_i best (S i) rest
  end.

Definition argmin (row : list Z) : result nat :=
  match row with
  | [] => Raise ValueError
  | x :: rest => Ok (argmin_from 0%nat x 1%nat rest)
  end.

(** The index [apply_palette] picks for one pixel. *)
Definition nearest_index (palette : list color) (pixel : color) : result nat :=
  let p := color_astype_int16 pixel in
  argmin (map (fun entry => distance p (color_astype_int16 entry)) palette).

(** The squared Euclidean distance the docstring speaks of, without
    wrap-around. *)
Definition sq_euclid (p q : color) : Z :=
  let '(p0, p1, p2) := p in
  let '(q0, q1, q2) := q in
  (byte.unsigned p0 - byte.unsigned q0) ^ 2 +
  (byte.unsigned p1 - byte.unsigned q1) ^ 2 +
  (byte.unsigned p2 - byte.unsigned q2) ^ 2.

(** An image is its shape (height, width) and its pixels in row-major
    order, as numpy stores them. *)
Record image : Type := { shape : nat * nat; pixels : list color }.

Definition black : color := (x00, x00, x00).
Definition white : color := (xff, xff, xff).

(** [palette[indices]] for one pixel, cast back to [uint8]. *)
Definition remap_pixel (palette : list color) (pixel : color) : result color :=
  i <- nearest_index palette pixel ;;
  Ok (color_astype_uint8
        (nth i (map color_astype_int16 palette) (0, 0, 0))).

Fixpoint map_result {A B : Type} (f : A -> result B) (l : list A) : result (list B) :=
  match l with
  | [] => Ok []
  | a :: rest =>
      b <- f a ;;
      bs <- map_result f rest ;;
      Ok (b :: bs)
  end.

(** [apply_palette]: [np.argmin] along the palette axis raises [ValueError]
    when that axis is empty, whatever the number of pixels. *)
Definition apply_palette (img : image) (palette : list color) : result image :=
  match palette with
  | [] => Raise ValueError
  | _ =>
      quantized_flat <- map_result (remap_pixel palette) (pixels img) ;;
      Ok {| shape := shape img; pixels := quantized_flat |}
  end.

(** ** Edge overlay and the stained-glass pipeline ([vitrail_o3.py]) *)

(** A Canny edge map: one [uint8] per pixel. *)
Record mask : Type := { mask_shape : nat * nat; mask_values : list byte }.

Definition shape_eqb (s t : nat * nat) : bool :=
  (fst s =? fst t)%nat && (snd s =? snd t)%nat.

(** [result[edges != 0] = [0, 0, 0]]: a boolean mask of another shape is
    an [IndexError] (the buffers of two arrays of one shape have one
    length). *)
Definition overlay_edges (img : image) (edges : mask) : result image :=
  if shape_eqb (shape img) (mask_shape edges)
     && (len (pixels img) =? len (mask_values edges))%nat
  then
    Ok {| shape := shape img;
          pixels := map (fun pe : color * byte =>
                           if (byte.unsigned (snd pe) =? 0)%Z then fst pe else black)
                        (combine (pixels img) (mask_values edges)) |}
  else Raise IndexError.

(** What one run of [stained_glass_effect] ends with. *)
Inductive outcome : Type :=
| ImageNotLoaded                 (* "Erreur : Impossible de charger l'image" *)
| PaletteTooSmall                (* "Erreur : La palette doit contenir au moins 8 couleurs." *)
| Written (result_img : image).  (* cv2.imwrite(output_path, result_img) *)

Section StainedGlass.

(** [detect_edges] is OpenCV's grey conversion followed by Canny. *)
Variable detect_edges : image -> mask.

(** [img] is what [cv2.imread] returned ([None] for an unreadable file)
    and [act_data] the bytes of the palette file. *)
Definition stained_glass_effect (img : option image) (act_data : list byte)
  : result outcome :=
  match img with
  | None => Ok ImageNotLoaded
  | Some img =>
      palette <- load_palette act_data ;;
      if (len palette <? 8)%nat then Ok PaletteTooSmall
      else
        let palette := if (8 <? len palette)%nat then firstn 8 palette else palette in
        quantized_img <- apply_palette img palette ;;
        let edges := detect_edges quantized_img in
        result_img <- overlay_edges quantized_img edges ;;
        Ok (Written result_img)
  end.

End StainedGlass.

(** ** Python's [float] and the conversions [process_image] uses *)

Module Float.

Definition prec : Z := 53.
Definition emax : Z := 1024.

(** [float(n)] for an [int]: rounded to nearest, ties to even;
    [OverflowError] beyond the largest double. *)
Definition of_int (n : Z) : result spec_float :=
  match binary_normalize prec emax n 0 false with
  | S754_infinity _ => Raise OverflowError
  | x => Ok x
  end.

(** The exact integer [n] as a mantissa with exponent 0. *)
Definition exact_int (n : Z) : spec_float :=
  match n with
  | Z0 => S754_zero false
  | Zpos p => S754_finite false p 0
  | Zneg p => S754_finite true p 0
  end.

(** [a / b] on two [int]s: CPython returns the correctly rounded quotient
    of the exact operands, [ZeroDivisionError] for [b = 0] and
    [OverflowError] when the quotient exceeds the largest double.  The
    division of [SpecFloat] rounds the quotient of any two
    mantissa-exponent pairs, so the operands are passed exactly. *)
Definition truediv (a b : Z) : result spec_float :=
  if b =? 0 then Raise ZeroDivisionError
  else
    match SFdiv prec emax (exact_int a) (exact_int b) with
    | S754_infinity _ => Raise OverflowError
    | x => Ok x
    end.

(** [x * y] on two [float]s. *)
Definition mul (x y : spec_float) : spec_float := SFmul prec emax x y.

(** [int(x)]: truncation toward zero. *)
Definition to_int (x : spec_float) : result Z :=
  match x with
  | S754_zero _ => Ok 0
  | S754_finite s m e =>
      Ok (cond_Zopp s (if 0 <=? e then Zpos m * 2 ^ e else Zpos m / 2 ^ (- e)))
  | S754_infinity _ => Raise OverflowError
  | S754_nan => Raise ValueError
  end.

(** [round(x)] with one argument: the nearest [int], ties to even. *)
Definition round (x : spec_float) : result Z :=
  match x with
  | S754_zero _ => Ok 0
  | S754_finite s m e =>
      if 0 <=? e then Ok (cond_Zopp s (Zpos m * 2 ^ e))
      else
        let d := 2 ^ (- e) in
        let q := Zpos m / d in
        let r := Zpos m mod d in
        Ok (cond_Zopp s
              (match 2 * r ?= d with
               | Lt => q
               | Eq => if Z.even q then q else q + 1
               | Gt => q + 1
               end))
  | S754_infinity _ => Raise OverflowError
  | S754_nan => Raise ValueError
  end.

End Float.

(** ** The layout of [process_image] ([dither.py]) *)

(** [sorted(set(l))] on integers: the distinct elements in ascending
    order. *)
Fixpoint insert_uniq (x : Z) (l : list Z) : list Z :=
  match l with
  | [] => [x]
  | y :: rest =>
      match x ?= y with
      | Lt => x :: l
      | Eq => l
      | Gt => y :: insert_uniq x rest
      end
  end.

Definition sorted_set (l : list Z) : list Z := fold_right insert_uniq [] l.

(** [enumerate(l)]. *)
Definition enumerate {A : Type} (l : list A) : list (nat * A) :=
  combine (seq 0 (len l)) l.

(** [str(i)] for an index. *)
Definition str (i : nat) : string := NilEmpty.string_of_uint (Nat.to_uint i).

(** The image handed to [quantize_and_save]. *)
Inductive picture : Type :=
| (* img_resized.crop(crop_box), img_resized being of size [resized] *)
  Crop (resized : Z * Z) (crop_box : Z * Z * Z * Z)
| (* img_resized.resize(size) *)
  ForcedFromResized (resized : Z * Z) (size : Z * Z)
| (* img.resize(size) *)
  ForcedFromOriginal (size : Z * Z).

(** One call [quantize_and_save(image, out_name, pal_img)]. *)
Record saved : Type :=
  { saved_image : picture; out_name : string; pal_img : list color }.

(** Width and height of a picture: a PIL crop box is
    (left, upper, right, lower), here [(x0, upper, x1, lower)]. *)
Definition picture_size (p : picture) : Z * Z :=
  match p with
  | Crop _ (x0, upper, x1, lower) => (x1 - x0, lower - upper)
  | ForcedFromResized _ size => size
  | ForcedFromOriginal size => size
  end.

Definition suffixes : list string := ["top"; "upper"; "lower"; "bottom"]%string.

(** The output name of crop number [i] out of [num_crops]. *)
Definition crop_out_name (output_base : string) (num_crops i : nat) : string :=
  if (num_crops =? 1)%nat then (output_base ++ ".bmp")%string
  else
    let suffix := if (i <? len suffixes)%nat then nth i suffixes ""%string else str i in
    (output_base ++ "_" ++ suffix ++ ".bmp")%string.

(** The proportional resize: [new_width = target_width] and
    [new_height = int(orig_height * (target_width / orig_width))]. *)
Definition proportional_size (orig_size : Z * Z) (target_width : Z) : result (Z * Z) :=
  let '(orig_width, orig_height) := orig_size in
  let new_width := target_width in
  ratio <- Float.truediv target_width orig_width ;;
  h <- Float.of_int orig_height ;;
  new_height <- Float.to_int (Float.mul h ratio) ;;
  Ok (new_width, new_height).

(** [n] is an integer nearest to [num / den] (for [den > 0]). *)
Definition nearest_int (num den n : Z) : Prop := 2 * Z.abs (n * den - num) <= den.

(** A palette file of 768 zero bytes, for examples. *)
Definition blank_act : list byte := repeat x00 768.

(** An eight-entry palette for examples: the seven colours of an e-paper
    panel (black, white, green, blue, red, yellow, orange) and black
    again. *)
Definition epaper_palette : list color :=
  [ black; white; (x00, xff, x00); (x00, x00, xff); (xff, x00, x00);
    (xff, xff, x00); (xff, x80, x00); black ].

(** [crop_positions]. *)
Definition crop_positions (y_max : Z) : result (list Z) :=
  third <- Float.truediv y_max 3 ;;
  p1 <- Float.round third ;;
  two_thirds <- Float.truediv (2 * y_max) 3 ;;
  p2 <- Float.round two_thirds ;;
  Ok (sorted_set [0; p1; p2; y_max]).

(** The loop [for i, y in enumerate(crop_positions)]: one crop of the
    resized image per position. *)
Definition crops_of (resized : Z * Z) (pal : list color) (output_base : string)
    (target_width target_height : Z) (positions : list Z) : list saved :=
  map (fun iy : nat * Z =>
         let '(i, y) := iy in
         let crop_box := (0, y, target_width, y + target_height) in
         {| saved_image := Crop resized crop_box;
            out_name := crop_out_name output_base (len positions) i;
            pal_img := pal |})
      (enumerate positions).

(** [process_image] on an input image of size [orig_size], with the bytes
    [act_data] of "N-color.act": the calls of [quantize_and_save], in
    order. *)
Definition process_image (orig_size : Z * Z) (act_data : list byte)
    (output_base : string) (target_width target_height : Z) : result (list saved) :=
  resized <- proportional_size orig_size target_width ;;
  let '(new_width, new_height) := resized in
  palette <- load_act_palette act_data ;;
  let pal_img := putpalette palette in
  if target_height <=? new_height then
    let y_max := new_height - target_height in
    positions <- crop_positions y_max ;;
    let crops :=
      crops_of resized pal_img output_base target_width target_height positions in
    Ok (crops ++
        [ {| saved_image := ForcedFromResized resized (target_width, target_height);
             out_name := (output_base ++ "_resized.bmp")%string;
             pal_img := pal_img |} ])
  else
    Ok [ {| saved_image := ForcedFromOriginal (target_width, target_height);
            out_name := (output_base ++ ".bmp")%string;
            pal_img := pal_img |} ].

(** The pictures and output names of a plan, for examples. *)
Definition summary (r : result (list saved)) : result (list (picture * string)) :=
  plan <- r ;;
  Ok (map (fun s => (saved_image s, out_name s)) plan).

(** ** Further notions used by the properties of Part III *)

(** [ndarray.ravel()] of an array of rows of three: the flat buffer. *)
Fixpoint ravel {A : Type} (rows : list (A * A * A)) : list A :=
  match rows with
  | [] => []
  | (a, b, c) :: rest => a :: b :: c :: ravel rest
  end.

(** Every channel of [q] is within 181 of the same channel of [p]: the
    range in which no square of [apply_palette] leaves [int16]. *)
Definition channels_within_181 (p q : color) : Prop :=
  let '(p0, p1, p2) := p in
  let '(q0, q1, q2) := q in
  Z.abs (byte.unsigned p0 - byte.unsigned q0) <= 181 /\
  Z.abs (byte.unsigned p1 - byte.unsigned q1) <= 181 /\
  Z.abs (byte.unsigned p2 - byte.unsigned q2) <= 181.

(** The vertical offset of a crop. *)
Definition crop_offset (p : picture) : option Z :=
  match p with
  | Crop _ (_, upper, _, _) => Some upper
  | _ => None
  end.

(** ** The batch conversion of [diterrepo.py] *)

(** [str.lower()] on the ASCII letters, which is all that the test of the
    extension looks at. *)
Definition lower_ascii (c : ascii) : ascii :=
  let n := nat_of_ascii c in
  if ((65 <=? n) && (n <=? 90))%nat then ascii_of_nat (n + 32) else c.

Fixpoint lower (s : string) : string :=
  match s with
  | EmptyString => EmptyString
  | String c rest => String (lower_ascii c) (lower rest)
  end.

(** [s.endswith(suffix)]. *)
Definition endswith (s suffix : string) : bool :=
  (String.length suffix <=? String.length s)%nat &&
  String.eqb (substring (String.length s - String.length suffix)
                        (String.length suffix) s) suffix.

(** [s.startswith(prefix)]. *)
Definition startswith (s prefix : string) : bool := String.prefix prefix s.

(** [f.lower().endswith((".jpg", ".jpeg"))]. *)
Definition is_jpeg (f : string) : bool :=
  endswith (lower f) ".jpg" || endswith (lower f) ".jpeg".

(** [os.path.join(a, b)] on a POSIX system. *)
Definition path_join (a b : string) : string :=
  if startswith b "/" then b
  else if String.eqb a "" || endswith a "/" then (a ++ b)%string
  else (a ++ "/" ++ b)%string.

(** [process_images_in_directory], [listing] being what [os.listdir]
    returned: for every image, the path that is opened and the call of
    [quantize_and_save] on [img.resize((target_width, target_height))]. *)
Definition process_images_in_directory (listing : list string) (act_data : list byte)
    (directory : string) (target_width target_height : Z)
  : result (list (string * saved)) :=
  palette <- load_act_palette act_data ;;
  let pal_img := putpalette palette in
  let images := filter is_jpeg listing in
  Ok (map (fun entry : nat * string =>
             let '(i, image_name) := entry in
             let input_path := path_join directory image_name in
             let output_name := path_join directory (str i ++ ".bmp") in
             (input_path,
              {| saved_image := ForcedFromOriginal (target_width, target_height);
                 out_name := output_name;
                 pal_img := pal_img |}))
          (combine (seq 1 (len images)) images)).

(** ** The label search of [vitrail-deepseek.py] *)

(** Wrap-around of an unsigned [w]-bit integer. *)
Definition wrap_unsigned (w : Z) (z : Z) : Z := z mod 2 ^ w.

Definition uint8 : Z -> Z := wrap_unsigned 8.
Definition uint64 : Z -> Z := wrap_unsigned 64.

(** [np.sum((data - color) ** 2, axis=1)] for one pixel: [data] and
    [color] are [uint8] arrays, so the difference and its square stay
    [uint8]; the sum is taken in the platform unsigned integer. *)
Definition lab_distance (pixel entry : color) : Z :=
  let '(p0, p1, p2) := pixel in
  let '(c0, c1, c2) := entry in
  let d0 := uint8 (byte.unsigned p0 - byte.unsigned c0) in
  let d1 := uint8 (byte.unsigned p1 - byte.unsigned c1) in
  let d2 := uint8 (byte.unsigned p2 - byte.unsigned c2) in
  uint64 (uint64 (uint8 (d0 * d0) + uint8 (d1 * d1)) + uint8 (d2 * d2)).

(** [labels = np.argmin(distances, axis=1)] for one pixel of [data], over
    the palette converted to Lab. *)
Definition label (custom_palette_lab : list color) (pixel : color) : result nat :=
  argmin (map (fun entry => lab_distance pixel entry) custom_palette_lab).

(** The channels of two colours agree modulo 16. *)
Definition congruent_mod_16 (p q : color) : Prop :=
  let '(p0, p1, p2) := p in
  let '(q0, q1, q2) := q in
  (byte.unsigned p0 - byte.unsigned q0) mod 16 = 0 /\
  (byte.unsigned p1 - byte.unsigned q1) mod 16 = 0 /\
  (byte.unsigned p2 - byte.unsigned q2) mod 16 = 0.

(* ===================================================================== *)
(** * Part II: properties                                                 *)
(* ===================================================================== *)

(** ** Palette loading *)

Section Reshape.

Context {A : Type}.

Lemma reshape_length (n : nat) : forall data : list A,
  (3 * n <= len data)%nat -> len (reshape n data) = n.
Proof.
  induction n as [|n IH]; intros data Hlen; [reflexivity|].
  destruct data as [|a [|b [|c rest]]]; simpl in Hlen; try lia.
  simpl. rewrite IH; [reflexivity | lia].
Qed.

Lemma reshape_nth (d : A) (n : nat) : forall (data : list A) (i : nat),
  (i < n)%nat -> (3 * n <= len data)%nat ->
  nth i (reshape n data) (d, d, d) =
    (nth (3 * i) data d, nth (3 * i + 1) data d, nth (3 * i + 2) data d).
Proof.
  induction n as [|n IH]; intros data i Hi Hlen; [lia|].
  destruct data as [|a [|b [|c rest]]]; simpl in Hlen; try lia.
  destruct i as [|i]; [reflexivity|].
  cbn [reshape nth]. rewrite IH by lia.
  replace (3 * S i)%nat with (S (S (S (3 * i)))) by lia.
  reflexivity.
Qed.

Lemma reshape_firstn (n : nat) : forall data : list A,
  reshape n (firstn (3 * n) data) = reshape n data.
Proof.
  induction n as [|n IH]; intros data; [reflexivity|].
  replace (3 * S n)%nat with (S (S (S (3 * n)))) by lia.
  destruct data as [|a [|b [|c rest]]]; try reflexivity.
  cbn [firstn reshape]. now rewrite IH.
Qed.

End Reshape.

Lemma reshape_nth_color (n : nat) (data : list byte) (i : nat) :
  (i < n)%nat -> (3 * n <= len data)%nat ->
  nth i (reshape n data) black =
    (nth (3 * i) data x00, nth (3 * i + 1) data x00, nth (3 * i + 2) data x00).
Proof. intros Hi Hlen. now apply (reshape_nth x00). Qed.

Lemma load_act_palette_ok (data : list byte) :
  (768 <= len data)%nat -> load_act_palette data = Ok (firstn 768 data).
Proof.
  intros H. unfold load_act_palette.
  destruct (Nat.ltb_spec (len data) 768); [lia | reflexivity].
Qed.

Lemma load_act_palette_raises (data : list byte) :
  (len data < 768)%nat -> load_act_palette data = Raise ValueError.
Proof.
  intros H. unfold load_act_palette.
  destruct (Nat.ltb_spec (len data) 768); [reflexivity | lia].
Qed.

Lemma load_palette_772 (data : list byte) :
  len data = 772%nat -> load_palette data = Ok (reshape 256 data).
Proof.
  intros H. unfold load_palette.
  destruct (Nat.eqb_spec (len data) 772) as [_|E]; [|contradiction].
  assert (Hl : len (firstn 768 data) = 768%nat) by (rewrite length_firstn; lia).
  rewrite Hl. change (768 mod 3 =? 0)%nat with true.
  change (768 / 3)%nat with 256%nat. cbn [negb].
  f_equal. apply (reshape_firstn 256).
Qed.

Lemma load_palette_multiple (data : list byte) :
  len data <> 772%nat -> (len data mod 3 = 0)%nat ->
  load_palette data = Ok (reshape (len data / 3) data).
Proof.
  intros H772 Hmod. unfold load_palette.
  destruct (Nat.eqb_spec (len data) 772); [contradiction|].
  rewrite Hmod. reflexivity.
Qed.

Lemma load_palette_raises (data : list byte) :
  len data <> 772%nat -> (len data mod 3 <> 0)%nat ->
  load_palette data = Raise ValueError.
Proof.
  intros H772 Hmod. unfold load_palette.
  destruct (Nat.eqb_spec (len data) 772); [contradiction|].
  destruct (Nat.eqb_spec (len data mod 3) 0); [contradiction | reflexivity].
Qed.

(** C2, as the claim states it, fails on [load_act_palette]: a file of 769
    bytes is neither 768 nor 772 bytes long, and it is accepted, its first
    768 bytes being the palette. *)
Lemma load_act_palette_accepts_769_bytes :
  len (repeat x00 769) <> 768%nat /\
  len (repeat x00 769) <> 772%nat /\
  load_act_palette (repeat x00 769) = Ok (repeat x00 768).
Proof.
  rewrite repeat_length.
  split; [lia|]. split; [lia|]. vm_compute. reflexivity.
Qed.

(** C2 (amended): [load_act_palette] raises [ValueError] exactly when the
    file has fewer than 768 bytes and otherwise keeps the first 768 bytes,
    which [putpalette] reads as 256 colours, colour [i] being the bytes
    [3i, 3i+3); [load_palette] raises [ValueError] exactly when the length
    is not 772 and not a multiple of 3 and otherwise yields [N = L / 3]
    colours in file order, [L] being 768 for a 772-byte file and the length
    otherwise, colour [i] being the bytes [3i, 3i+3).  So 768 bytes give the
    256 consecutive triples, 772 bytes give the same colours as their first
    768 bytes, and 767 bytes are refused by both loaders. *)
Theorem palette_loading (data : list byte) :
  (* load_act_palette *)
  (load_act_palette data = Raise ValueError <-> (len data < 768)%nat) /\
  ((768 <= len data)%nat ->
     load_act_palette data = Ok (firstn 768 data) /\
     len (putpalette (firstn 768 data)) = 256%nat /\
     forall i, (i < 256)%nat ->
       nth i (putpalette (firstn 768 data)) black =
         (nth (3 * i) data x00, nth (3 * i + 1) data x00, nth (3 * i + 2) data x00)) /\
  (* load_palette *)
  (load_palette data = Raise ValueError <->
     len data <> 772%nat /\ (len data mod 3 <> 0)%nat) /\
  (len data = 772%nat \/ (len data mod 3 = 0)%nat ->
     let L := if (len data =? 772)%nat then 768%nat else len data in
     exists palette,
       load_palette data = Ok palette /\
       len palette = (L / 3)%nat /\
       forall i, (i < L / 3)%nat ->
         nth i palette black =
           (nth (3 * i) data x00, nth (3 * i + 1) data x00, nth (3 * i + 2) data x00)) /\
  (* the three lengths of the specification *)
  (len data = 768%nat ->
     load_palette data = Ok (reshape 256 data) /\
     load_act_palette data = Ok data) /\
  (len data = 772%nat ->
     load_palette data = load_palette (firstn 768 data) /\
     load_act_palette data = load_act_palette (firstn 768 data)) /\
  (len data = 767%nat ->
     load_palette data = Raise ValueError /\
     load_act_palette data = Raise ValueError).
Proof.
  repeat apply conj.
  - intros H. destruct (Nat.lt_ge_cases (len data) 768) as [Hlt|Hge]; [exact Hlt|].
    rewrite load_act_palette_ok in H by exact Hge. discriminate.
  - apply load_act_palette_raises.
  - intros Hge.
    assert (Hl : len (firstn 768 data) = 768%nat) by (rewrite length_firstn; lia).
    split; [now apply load_act_palette_ok|].
    unfold putpalette. rewrite Hl. change (768 / 3)%nat with 256%nat.
    split; [apply reshape_length; lia|].
    intros i Hi. rewrite reshape_nth_color by lia.
    rewrite !nth_firstn.
    destruct (Nat.ltb_spec (3 * i) 768); [|lia].
    destruct (Nat.ltb_spec (3 * i + 1) 768); [|lia].
    destruct (Nat.ltb_spec (3 * i + 2) 768); [|lia].
    reflexivity.
  - intros H.
    destruct (Nat.eq_dec (len data) 772) as [E|E].
    { rewrite load_palette_772 in H by exact E. discriminate. }
    destruct (Nat.eq_dec (len data mod 3) 0) as [M|M].
    { rewrite load_palette_multiple in H by assumption. discriminate. }
    now split.
  - intros [E M]. now apply load_palette_raises.
  - intros H L.
    destruct (Nat.eqb_spec (len data) 772) as [E|E].
    + exists (reshape 256 data). subst L. change (768 / 3)%nat with 256%nat.
      split; [now apply load_palette_772|].
      split; [apply reshape_length; lia|].
      intros i Hi. apply reshape_nth_color; lia.
    + destruct H as [H|H]; [contradiction|].
      exists (reshape (len data / 3) data). subst L.
      assert (Hdiv : (3 * (len data / 3) <= len data)%nat)
        by (apply Nat.Div0.mul_div_le).
      split; [now apply load_palette_multiple|].
      split; [now apply reshape_length|].
      intros i Hi. now apply reshape_nth_color.
  - intros H. split.
    + rewrite load_palette_multiple by (rewrite H; first [discriminate | reflexivity]).
      now rewrite H.
    + rewrite load_act_palette_ok by lia.
      rewrite firstn_all2 by lia. reflexivity.
  - intros H.
    assert (Hl : len (firstn 768 data) = 768%nat) by (rewrite length_firstn; lia).
    split.
    + rewrite load_palette_772 by assumption.
      rewrite load_palette_multiple by (rewrite Hl; first [discriminate | reflexivity]).
      rewrite Hl. change (768 / 3)%nat with 256%nat.
      symmetry. f_equal. apply (reshape_firstn 256).
    + rewrite !load_act_palette_ok by lia.
      now rewrite firstn_firstn.
  - intros H. split.
    + apply load_palette_raises; rewrite H; [discriminate | vm_compute; discriminate].
    + apply load_act_palette_raises. lia.
Qed.

(** ** Nearest-colour remapping *)

(** [argmin_from] keeps the first least element: the invariant of the scan
    over [pre ++ row], [pre] being the part already seen. *)
Lemma argmin_from_first_least (row : list Z) : forall (pre : list Z) (best_i : nat) (best : Z),
  (best_i < len pre)%nat ->
  nth best_i pre 0 = best ->
  (forall j, (j < len pre)%nat -> best <= nth j pre 0) ->
  (forall j, (j < best_i)%nat -> best < nth j pre 0) ->
  let k := argmin_from best_i best (len pre) row in
  let l := pre ++ row in
  (k < len l)%nat /\
  (forall j, (j < len l)%nat -> nth k l 0 <= nth j l 0) /\
  (forall j, (j < k)%nat -> nth k l 0 < nth j l 0).
Proof.
  induction row as [|x rest IH]; intros pre best_i best Hi Hbest Hle Hlt.
  - cbn. rewrite app_nil_r, Hbest. auto.
  - cbn [argmin_from].
    replace (pre ++ x :: rest) with ((pre ++ [x]) ++ rest)
      by (rewrite <- app_assoc; reflexivity).
    replace (S (len pre)) with (len (pre ++ [x]))
      by (rewrite length_app; cbn; lia).
    assert (Hnth : forall j, (j < len pre)%nat -> nth j (pre ++ [x]) 0 = nth j pre 0)
      by (intros j Hj; now apply app_nth1).
    assert (Hx : nth (len pre) (pre ++ [x]) 0 = x)
      by (rewrite app_nth2, Nat.sub_diag by lia; reflexivity).
    assert (Hcases : forall j, (j < len (pre ++ [x]))%nat -> (j < len pre)%nat \/ j = len pre)
      by (intros j; rewrite length_app; cbn; lia).
    destruct (Z.ltb_spec x best) as [Hxb|Hxb].
    + apply IH.
      * rewrite length_app; cbn; lia.
      * exact Hx.
      * intros j Hj. destruct (Hcases j Hj) as [Hj' | ->].
        -- rewrite Hnth by exact Hj'. specialize (Hle j Hj'). lia.
        -- rewrite Hx. lia.
      * intros j Hj. rewrite Hnth by exact Hj. specialize (Hle j Hj). lia.
    + apply IH.
      * rewrite length_app; cbn; lia.
      * rewrite Hnth by exact Hi. exact Hbest.
      * intros j Hj. destruct (Hcases j Hj) as [Hj' | ->].
        -- rewrite Hnth by exact Hj'. now apply Hle.
        -- rewrite Hx. exact Hxb.
      * intros j Hj. rewrite Hnth by lia. now apply Hlt.
Qed.

(** [np.argmin] on a non-empty row: an index of the row, whose value is
    least, and the first such index. *)
Lemma argmin_first_least (row : list Z) :
  row <> [] ->
  exists k,
    argmin row = Ok k /\ (k < len row)%nat /\
    (forall j, (j < len row)%nat -> nth k row 0 <= nth j row 0) /\
    (forall j, (j < k)%nat -> nth k row 0 < nth j row 0).
Proof.
  destruct row as [|x rest]; [congruence|]. intros _.
  exists (argmin_from 0%nat x 1%nat rest). split; [reflexivity|].
  apply (argmin_from_first_least rest [x] 0%nat x).
  - cbn; lia.
  - reflexivity.
  - intros j Hj. cbn in Hj. assert (j = 0%nat) as -> by lia. cbn. lia.
  - intros j Hj. lia.
Qed.

(** The index [apply_palette] picks lies in the palette, and it is the
    first index whose wrapped distance is least. *)
Lemma nearest_index_in_range (palette : list color) (pixel : color) :
  palette <> [] ->
  exists k,
    nearest_index palette pixel = Ok k /\ (k < len palette)%nat /\
    forall j, (j < k)%nat ->
      distance (color_astype_int16 pixel) (color_astype_int16 (nth k palette black)) <
      distance (color_astype_int16 pixel) (color_astype_int16 (nth j palette black)).
Proof.
  intros Hne. unfold nearest_index.
  set (f := fun entry => distance (color_astype_int16 pixel) (color_astype_int16 entry)).
  destruct (argmin_first_least (map f palette)) as (k & Hk & Hlen & _ & Hfirst).
  { destruct palette; [congruence | discriminate]. }
  rewrite length_map in Hlen.
  exists k. repeat split; try assumption.
  intros j Hj. specialize (Hfirst j Hj).
  assert (Hn : forall i, (i < len palette)%nat -> nth i (map f palette) 0 = f (nth i palette black)).
  { intros i Hi. rewrite (nth_indep _ 0 (f black)) by (rewrite length_map; exact Hi).
    apply map_nth. }
  rewrite !Hn in Hfirst by lia. exact Hfirst.
Qed.

(** The tie of the specification's test: with the palette
    [(0,0,0), (0,0,0)] every pixel gets index 0. *)
Lemma nearest_index_two_blacks (pixel : color) :
  nearest_index [black; black] pixel = Ok 0%nat.
Proof.
  unfold nearest_index. cbn [map argmin argmin_from].
  now rewrite Z.ltb_irrefl.
Qed.

Lemma astype_int16_unsigned (b : byte) : astype_int16 b = byte.unsigned b.
Proof.
  unfold astype_int16, int16, wrap_signed.
  pose proof (byte.unsigned_range b) as Hb.
  change (2 ^ 8) with 256 in Hb. change (2 ^ (16 - 1)) with 32768.
  change (2 ^ 16) with 65536.
  rewrite Z.mod_small by lia. lia.
Qed.

(** The two casts of [apply_palette] give back the palette entry. *)
Lemma color_astype_roundtrip (c : color) :
  color_astype_uint8 (color_astype_int16 c) = c.
Proof.
  destruct c as [[c0 c1] c2]. unfold color_astype_uint8, color_astype_int16, astype_uint8.
  now rewrite !astype_int16_unsigned, !byte.of_Z_unsigned.
Qed.

(** Every remapped pixel is an entry of the palette. *)
Lemma remap_pixel_in_palette (palette : list color) (pixel : color) :
  palette <> [] ->
  exists c, remap_pixel palette pixel = Ok c /\ In c palette.
Proof.
  intros Hne. unfold remap_pixel.
  destruct (nearest_index_in_range palette pixel Hne) as (k & -> & Hk & _).
  cbn [bind].
  exists (nth k palette black). split.
  - f_equal.
    rewrite (nth_indep _ (0, 0, 0) (color_astype_int16 black))
      by (rewrite length_map; exact Hk).
    rewrite map_nth. apply color_astype_roundtrip.
  - now apply nth_In.
Qed.

Lemma map_result_forall {A B : Type} (f : A -> result B) (P : B -> Prop) (l : list A) :
  (forall a, exists b, f a = Ok b /\ P b) ->
  exists bs, map_result f l = Ok bs /\ len bs = len l /\ Forall P bs.
Proof.
  intros Hf. induction l as [|a rest (bs & Hbs & Hlen & HP)].
  - exists []. repeat split; constructor.
  - destruct (Hf a) as (b & Hb & Pb).
    exists (b :: bs). cbn [map_result]. rewrite Hb, Hbs. cbn.
    repeat split; [now rewrite Hlen | now constructor].
Qed.

(** [apply_palette] with a non-empty palette returns an image of the same
    shape whose pixels are all entries of the palette. *)
Lemma apply_palette_in_palette (img : image) (palette : list color) :
  palette <> [] ->
  exists q,
    apply_palette img palette = Ok q /\
    shape q = shape img /\ len (pixels q) = len (pixels img) /\
    Forall (fun c => In c palette) (pixels q).
Proof.
  intros Hne. unfold apply_palette.
  destruct (map_result_forall (remap_pixel palette) (fun c => In c palette) (pixels img))
    as (bs & Hbs & Hlen & HP).
  { intros a. now apply remap_pixel_in_palette. }
  destruct palette as [|c0 rest]; [congruence|].
  rewrite Hbs. cbn [bind].
  eexists. split; [reflexivity|]. cbn. auto.
Qed.

Lemma wrap_signed_small (w z : Z) :
  0 < w -> - 2 ^ (w - 1) <= z < 2 ^ (w - 1) -> wrap_signed w z = z.
Proof.
  intros Hw Hz. unfold wrap_signed.
  assert (H2 : 2 ^ w = 2 * 2 ^ (w - 1))
    by (rewrite <- Z.pow_succ_r by lia; f_equal; lia).
  rewrite Z.mod_small by lia. lia.
Qed.

(** Where no square exceeds the [int16] range (channel differences of at
    most 181), the computed distance is the squared Euclidean distance. *)
Lemma distance_exact_when_close (p q : color) :
  (let '(p0, p1, p2) := p in
   let '(q0, q1, q2) := q in
   Z.abs (byte.unsigned p0 - byte.unsigned q0) <= 181 /\
   Z.abs (byte.unsigned p1 - byte.unsigned q1) <= 181 /\
   Z.abs (byte.unsigned p2 - byte.unsigned q2) <= 181) ->
  distance (color_astype_int16 p) (color_astype_int16 q) = sq_euclid p q.
Proof.
  destruct p as [[p0 p1] p2], q as [[q0 q1] q2]. intros (H0 & H1 & H2).
  unfold distance, color_astype_int16, diff, square16, sq_euclid.
  rewrite !astype_int16_unsigned.
  set (d0 := byte.unsigned p0 - byte.unsigned q0) in *.
  set (d1 := byte.unsigned p1 - byte.unsigned q1) in *.
  set (d2 := byte.unsigned p2 - byte.unsigned q2) in *.
  unfold int16, int64.
  rewrite !(wrap_signed_small 16 d0), !(wrap_signed_small 16 d1), !(wrap_signed_small 16 d2)
    by (change (2 ^ (16 - 1)) with 32768; lia).
  assert (Hs0 : 0 <= d0 * d0 <= 32761) by nia.
  assert (Hs1 : 0 <= d1 * d1 <= 32761) by nia.
  assert (Hs2 : 0 <= d2 * d2 <= 32761) by nia.
  rewrite !(wrap_signed_small 16 (d0 * d0)), !(wrap_signed_small 16 (d1 * d1)),
    !(wrap_signed_small 16 (d2 * d2)) by (change (2 ^ (16 - 1)) with 32768; lia).
  rewrite (wrap_signed_small 64 (d0 * d0 + d1 * d1))
    by (change (2 ^ (64 - 1)) with 9223372036854775808; lia).
  rewrite (wrap_signed_small 64)
    by (change (2 ^ (64 - 1)) with 9223372036854775808; lia).
  ring.
Qed.

(** C1: the code departs from the claim on the eight-colour palette
    [epaper_palette] and a white pixel.  The white entry (index 1) is at
    squared Euclidean distance 0 and the black one (index 0) at 195075, yet
    index 0 is returned: each square 255 * 255 wraps around in [int16] to
    -511, so that the computed distance to black is -1533, the least of
    the row. *)
Theorem nearest_index_white_is_black :
  nearest_index epaper_palette white = Ok 0%nat /\
  nth 0 epaper_palette black = black /\
  nth 1 epaper_palette black = white /\
  sq_euclid white white = 0 /\
  sq_euclid white black = 195075 /\
  distance (color_astype_int16 white) (color_astype_int16 white) = 0 /\
  distance (color_astype_int16 white) (color_astype_int16 black) = -1533.
Proof. repeat split. Qed.

(** C5: the code departs from the claim on the image of two pixels, white
    and (255, 0, 0), with the palette [epaper_palette]: both pixels are
    entries of the palette, and the remapped image holds black and white
    instead. *)
Theorem apply_palette_not_idempotent :
  let img := {| shape := (1%nat, 2%nat); pixels := [white; (xff, x00, x00)] |} in
  Forall (fun c => In c epaper_palette) (pixels img) /\
  apply_palette img epaper_palette =
    Ok {| shape := (1%nat, 2%nat); pixels := [black; white] |} /\
  apply_palette img epaper_palette <> Ok img.
Proof.
  cbv zeta. split; [|split].
  - constructor; [right; left; reflexivity|].
    constructor; [do 4 right; left; reflexivity | constructor].
  - vm_compute. reflexivity.
  - vm_compute. discriminate.
Qed.

(** ** The stained-glass pipeline *)

Lemma overlay_edges_ok (img : image) (edges : mask) :
  shape img = mask_shape edges ->
  len (pixels img) = len (mask_values edges) ->
  overlay_edges img edges =
    Ok {| shape := shape img;
          pixels := map (fun pe : color * byte =>
                           if byte.unsigned (snd pe) =? 0 then fst pe else black)
                        (combine (pixels img) (mask_values edges)) |}.
Proof.
  intros Hs Hl. unfold overlay_edges, shape_eqb.
  rewrite Hs, Hl, !Nat.eqb_refl. reflexivity.
Qed.

(** C8: with a palette file that parses to [palette], a palette of fewer
    than 8 colours stops [stained_glass_effect] with the too-small-palette
    error and nothing is written; a palette of more than 8 colours is cut
    to its first 8 entries before the remapping, whose pixels are then all
    among these 8 entries. *)
Theorem stained_glass_needs_8_colors
    (detect_edges : image -> mask) (img : image) (act_data : list byte)
    (palette : list color) :
  load_palette act_data = Ok palette ->
  ((len palette < 8)%nat ->
     stained_glass_effect detect_edges (Some img) act_data = Ok PaletteTooSmall) /\
  ((8 < len palette)%nat ->
     exists quantized_img,
       apply_palette img (firstn 8 palette) = Ok quantized_img /\
       Forall (fun c => In c (firstn 8 palette)) (pixels quantized_img) /\
       stained_glass_effect detect_edges (Some img) act_data =
         (result_img <- overlay_edges quantized_img (detect_edges quantized_img) ;;
          Ok (Written result_img))).
Proof.
  intros Hload. unfold stained_glass_effect. rewrite Hload. cbn [bind]. split.
  - intros Hlt. destruct (Nat.ltb_spec (len palette) 8); [reflexivity | lia].
  - intros Hgt.
    destruct (Nat.ltb_spec (len palette) 8); [lia|].
    destruct (Nat.ltb_spec 8 (len palette)); [|lia].
    destruct (apply_palette_in_palette img (firstn 8 palette)) as (q & Hq & _ & _ & Hin).
    { destruct palette; [cbn in Hgt; lia | discriminate]. }
    exists q. rewrite Hq. cbn [bind]. auto.
Qed.

(** A witness of C8: a file of 27 bytes holds 9 colours, and the first 8
    are used. *)
Lemma stained_glass_needs_8_colors_witness :
  let detect_edges := fun q : image =>
    {| mask_shape := shape q; mask_values := map (fun _ => x00) (pixels q) |} in
  let img := {| shape := (1%nat, 1%nat); pixels := [white] |} in
  let act_data := repeat x00 24 ++ repeat xff 3 in
  load_palette act_data = Ok (repeat black 8 ++ [white]) /\
  (((len (repeat black 8 ++ [white]) < 8)%nat ->
     stained_glass_effect detect_edges (Some img) act_data = Ok PaletteTooSmall) /\
   ((8 < len (repeat black 8 ++ [white]))%nat ->
     exists quantized_img,
       apply_palette img (firstn 8 (repeat black 8 ++ [white])) = Ok quantized_img /\
       Forall (fun c => In c (firstn 8 (repeat black 8 ++ [white]))) (pixels quantized_img) /\
       stained_glass_effect detect_edges (Some img) act_data =
         (result_img <- overlay_edges quantized_img (detect_edges quantized_img) ;;
          Ok (Written result_img)))).
Proof.
  cbv zeta. split; [reflexivity|].
  apply stained_glass_needs_8_colors. reflexivity.
Defined.

(** C9, as the claim states it, fails: a white pixel of an image remapped
    on a palette of eight whites is an entry of the palette; under an edge
    it becomes (0,0,0), which is no entry of that palette. *)
Lemma overlay_edges_leaves_palette :
  let palette := repeat white 8 in
  let quantized_img := {| shape := (1%nat, 1%nat); pixels := [white] |} in
  let edges := {| mask_shape := (1%nat, 1%nat); mask_values := [xff] |} in
  apply_palette quantized_img palette = Ok quantized_img /\
  Forall (fun c => In c palette) (pixels quantized_img) /\
  overlay_edges quantized_img edges =
    Ok {| shape := (1%nat, 1%nat); pixels := [black] |} /\
  ~ In black palette.
Proof.
  cbv zeta. repeat split.
  - constructor; [left; reflexivity | constructor].
  - cbn. intros H. repeat (destruct H as [H|H]; [discriminate H|]). exact H.
Qed.

(** C9 (amended): [overlay_edges] sets every pixel under a non-zero mask
    value to literal black (0,0,0), whether black is a palette entry or
    not, and keeps every other pixel; so each pixel of the output is an
    entry of the palette or black, and the output stays within the palette
    when black is one of its entries. *)
Theorem overlay_edges_black_or_kept (img : image) (edges : mask) :
  shape img = mask_shape edges ->
  len (pixels img) = len (mask_values edges) ->
  exists result_img,
    overlay_edges img edges = Ok result_img /\
    shape result_img = shape img /\
    len (pixels result_img) = len (pixels img) /\
    (forall i, (i < len (pixels img))%nat ->
       nth i (pixels result_img) black =
         if byte.unsigned (nth i (mask_values edges) x00) =? 0
         then nth i (pixels img) black else black) /\
    (forall palette,
       Forall (fun c => In c palette) (pixels img) ->
       Forall (fun c => In c palette \/ c = black) (pixels result_img)) /\
    (forall palette,
       In black palette ->
       Forall (fun c => In c palette) (pixels img) ->
       Forall (fun c => In c palette) (pixels result_img)).
Proof.
  intros Hs Hl. rewrite (overlay_edges_ok img edges Hs Hl).
  eexists. split; [reflexivity|]. cbn [shape pixels].
  set (f := fun pe : color * byte => if byte.unsigned (snd pe) =? 0 then fst pe else black).
  assert (Hlen : len (map f (combine (pixels img) (mask_values edges))) = len (pixels img))
    by (rewrite length_map, length_combine; lia).
  assert (Hnth : forall i, (i < len (pixels img))%nat ->
            nth i (map f (combine (pixels img) (mask_values edges))) black =
            f (nth i (pixels img) black, nth i (mask_values edges) x00)).
  { intros i Hi.
    rewrite (nth_indep _ black (f (black, x00))) by (rewrite Hlen; exact Hi).
    rewrite map_nth, combine_nth by exact Hl. reflexivity. }
  assert (Hall : forall P : color -> Prop,
            P black -> Forall P (pixels img) ->
            Forall P (map f (combine (pixels img) (mask_values edges)))).
  { intros P Pb HP. apply Forall_forall. intros c Hc.
    apply in_map_iff in Hc. destruct Hc as ([p e] & <- & Hin).
    apply in_combine_l in Hin. unfold f; cbn [fst snd].
    destruct (byte.unsigned e =? 0); [|exact Pb].
    rewrite Forall_forall in HP. now apply HP. }
  repeat split.
  - exact Hlen.
  - intros i Hi. now rewrite Hnth.
  - intros palette HP. apply Hall; [now right|].
    eapply Forall_impl; [|exact HP]. intros c Hc; now left.
  - intros palette Hb HP. now apply Hall.
Qed.

(** A witness of C9 (amended): a two-pixel image with an edge on its second
    pixel. *)
Lemma overlay_edges_black_or_kept_witness :
  let img := {| shape := (1%nat, 2%nat); pixels := [white; white] |} in
  let edges := {| mask_shape := (1%nat, 2%nat); mask_values := [x00; xff] |} in
  shape img = mask_shape edges /\
  len (pixels img) = len (mask_values edges) /\
  exists result_img,
    overlay_edges img edges = Ok result_img /\
    shape result_img = shape img /\
    len (pixels result_img) = len (pixels img) /\
    (forall i, (i < len (pixels img))%nat ->
       nth i (pixels result_img) black =
         if byte.unsigned (nth i (mask_values edges) x00) =? 0
         then nth i (pixels img) black else black) /\
    (forall palette,
       Forall (fun c => In c palette) (pixels img) ->
       Forall (fun c => In c palette \/ c = black) (pixels result_img)) /\
    (forall palette,
       In black palette ->
       Forall (fun c => In c palette) (pixels img) ->
       Forall (fun c => In c palette) (pixels result_img)).
Proof.
  cbv zeta. split; [reflexivity|]. split; [reflexivity|].
  apply overlay_edges_black_or_kept; reflexivity.
Defined.

(** ** Binary64 rounding: the mantissa of a result and its error *)

(** [digits2_pos p] is the number of binary digits of [p]. *)
Lemma digits2_pos_bounds (p : positive) :
  2 ^ (Zpos (digits2_pos p) - 1) <= Zpos p < 2 ^ Zpos (digits2_pos p).
Proof.
  induction p as [p IH|p IH|]; cbn [digits2_pos].
  - rewrite Pos2Z.inj_succ.
    replace (Z.succ (Zpos (digits2_pos p)) - 1) with (Z.succ (Zpos (digits2_pos p) - 1)) by lia.
    rewrite !Z.pow_succ_r by lia. lia.
  - rewrite Pos2Z.inj_succ.
    replace (Z.succ (Zpos (digits2_pos p)) - 1) with (Z.succ (Zpos (digits2_pos p) - 1)) by lia.
    rewrite !Z.pow_succ_r by lia. lia.
  - cbn. lia.
Qed.

(** The number of digits is determined by the two powers of 2 around. *)
Lemma Zdigits2_unique (z k : Z) :
  0 < k -> 2 ^ (k - 1) <= z < 2 ^ k -> Zdigits2 z = k.
Proof.
  intros Hk [Hlo Hhi].
  assert (0 < z) by (pose proof (Z.pow_pos_nonneg 2 (k - 1)); lia).
  destruct z as [|p|p]; try lia. cbn [Zdigits2].
  pose proof (digits2_pos_bounds p) as [Hlo' Hhi'].
  set (d := Zpos (digits2_pos p)) in *.
  assert (Hd : 0 < d) by (subst d; lia).
  destruct (Z.lt_trichotomy d k) as [Hlt|[Heq|Hgt]]; [|exact Heq|].
  - assert (2 ^ d <= 2 ^ (k - 1)) by (apply Z.pow_le_mono_r; lia). lia.
  - assert (2 ^ k <= 2 ^ (d - 1)) by (apply Z.pow_le_mono_r; lia). lia.
Qed.

Lemma shr_m_of_loc (m : Z) (l : location) : shr_m (shr_record_of_loc m l) = m.
Proof. destruct l as [|[| |]]; reflexivity. Qed.

Lemma shr_1_halves (mrs : shr_record) :
  0 <= shr_m mrs -> shr_m (shr_1 mrs) = shr_m mrs / 2.
Proof.
  destruct mrs as [m r s]. cbn [shr_m]. intros Hm.
  destruct m as [|[p|p|]|p]; cbn [shr_1 shr_m]; try lia.
  - reflexivity.
  - rewrite Pos2Z.inj_xI. apply (Z.div_unique _ 2 _ 1); lia.
  - rewrite Pos2Z.inj_xO. apply (Z.div_unique _ 2 _ 0); lia.
  - reflexivity.
Qed.

(** [n] steps of [shr_1] divide the mantissa by [2 ^ n]. *)
Lemma iter_shr_1_divides (n : positive) : forall mrs : shr_record,
  0 <= shr_m mrs ->
  shr_m (iter_pos shr_1 n mrs) = shr_m mrs / 2 ^ Zpos n.
Proof.
  induction n as [n IH|n IH|]; intros mrs Hm; cbn [iter_pos].
  - assert (H1 : 0 <= shr_m (shr_1 mrs))
      by (rewrite shr_1_halves by exact Hm; apply Z.div_pos; lia).
    assert (H2 : 0 <= shr_m (iter_pos shr_1 n (shr_1 mrs)))
      by (rewrite IH by exact H1; apply Z.div_pos; [exact H1 | apply Z.pow_pos_nonneg; lia]).
    rewrite IH by exact H2. rewrite IH by exact H1. rewrite shr_1_halves by exact Hm.
    rewrite !Z.div_div by (try apply Z.pow_pos_nonneg; lia).
    f_equal. rewrite <- Z.pow_add_r, <- (Z.pow_succ_r 2) by lia. f_equal. lia.
  - assert (H2 : 0 <= shr_m (iter_pos shr_1 n mrs))
      by (rewrite IH by exact Hm; apply Z.div_pos; [exact Hm | apply Z.pow_pos_nonneg; lia]).
    rewrite IH by exact H2. rewrite IH by exact Hm.
    rewrite !Z.div_div by (try apply Z.pow_pos_nonneg; lia).
    f_equal. rewrite <- Z.pow_add_r by lia. f_equal. lia.
  - rewrite shr_1_halves by exact Hm. reflexivity.
Qed.

(** [shr] by [n >= 0] bits. *)
Lemma shr_divides (mrs : shr_record) (e n : Z) :
  0 <= shr_m mrs -> 0 <= n ->
  exists mrs', shr mrs e n = (mrs', e + n) /\ shr_m mrs' = shr_m mrs / 2 ^ n.
Proof.
  intros Hm Hn. destruct n as [|p|p]; try lia.
  - exists mrs. cbn. rewrite Z.add_0_r, Z.div_1_r. auto.
  - exists (iter_pos shr_1 p mrs). cbn [shr]. split; [reflexivity|].
    now apply iter_shr_1_divides.
Qed.

Lemma round_nearest_even_cases (m : Z) (l : location) :
  round_nearest_even m l = m \/ round_nearest_even m l = m + 1.
Proof.
  destruct l as [|[| |]]; cbn; auto. destruct (Z.even m); auto.
Qed.

(** A mantissa of exactly 53 bits with an exact location is kept as it
    is. *)
Lemma binary_round_aux_exact (s : bool) (mx : positive) (ex : Z) :
  2 ^ 52 <= Zpos mx < 2 ^ 53 -> -1074 <= ex <= 971 ->
  binary_round_aux Float.prec Float.emax s (Zpos mx) ex loc_Exact = S754_finite s mx ex.
Proof.
  intros Hm He. unfold binary_round_aux, shr_fexp.
  rewrite (Zdigits2_unique (Zpos mx) 53) by lia.
  unfold fexp, emin, Float.prec, Float.emax.
  replace (Z.max (53 + ex - 53) (3 - 1024 - 53) - ex) with 0 by lia.
  cbn [shr shr_record_of_loc shr_m loc_of_shr_record round_nearest_even].
  rewrite (Zdigits2_unique (Zpos mx) 53) by lia.
  replace (Z.max (53 + ex - 53) (3 - 1024 - 53) - ex) with 0 by lia.
  cbn [shr shr_m].
  destruct (Z.leb_spec ex (1024 - 53)); [reflexivity | lia].
Qed.

(** Rounding a mantissa [mx] of at least 53 bits (with any location of the
    discarded part), [n] being the number of bits that are dropped: the
    result is a normal number [m * 2 ^ e]; in units of [2 ^ ex] it is one
    of the two multiples of [2 ^ n] around [mx]. *)
Lemma binary_round_aux_faithful (s : bool) (mx ex : Z) (lx : location) (n : Z) :
  2 ^ 52 <= mx -> -1074 <= ex -> n = Zdigits2 mx - 53 -> ex + n + 1 <= 971 ->
  exists (m : positive) (e lo : Z),
    binary_round_aux Float.prec Float.emax s mx ex lx = S754_finite s m e /\
    2 ^ 52 <= Zpos m < 2 ^ 53 /\
    0 <= n /\ ex + n <= e <= ex + n + 1 /\
    lo <= mx < lo + 2 ^ n /\
    2 ^ 52 * 2 ^ n <= lo /\
    (Zpos m * 2 ^ (e - ex) = lo \/ Zpos m * 2 ^ (e - ex) = lo + 2 ^ n).
Proof.
  intros Hmx Hex Hndef Hmax.
  destruct mx as [|p|p]; try lia.
  pose proof (digits2_pos_bounds p) as Hd.
  cbn [Zdigits2] in Hndef.
  set (d := Zpos (digits2_pos p)) in *.
  assert (Hd53 : 53 <= d).
  { destruct (Z.le_gt_cases 53 d) as [H|H]; [exact H|].
    assert (2 ^ d <= 2 ^ 52) by (apply Z.pow_le_mono_r; lia). lia. }
  assert (Hn : 0 <= n) by lia.
  assert (H2n : 0 < 2 ^ n) by (apply Z.pow_pos_nonneg; lia).
  assert (Hlow : 2 ^ 52 * 2 ^ n <= Zpos p).
  { rewrite <- Z.pow_add_r by lia. replace (52 + n) with (d - 1) by lia. lia. }
  assert (Hhigh : Zpos p < 2 ^ 53 * 2 ^ n).
  { rewrite <- Z.pow_add_r by lia. replace (53 + n) with d by lia. lia. }
  set (mq := Zpos p / 2 ^ n).
  assert (Hmq : 2 ^ 52 <= mq < 2 ^ 53).
  { subst mq. split.
    - apply Z.div_le_lower_bound; lia.
    - apply Z.div_lt_upper_bound; lia. }
  assert (Hlo : mq * 2 ^ n <= Zpos p < mq * 2 ^ n + 2 ^ n).
  { subst mq. pose proof (Z.div_mod (Zpos p) (2 ^ n)) as Hdm.
    pose proof (Z.mod_pos_bound (Zpos p) (2 ^ n) H2n). lia. }
  unfold binary_round_aux, shr_fexp. cbn [Zdigits2]. fold d.
  replace (fexp Float.prec Float.emax (d + ex) - ex) with n
    by (unfold fexp, emin, Float.prec, Float.emax; lia).
  destruct (shr_divides (shr_record_of_loc (Zpos p) lx) ex n) as (mrs' & Hshr & Hm');
    [rewrite shr_m_of_loc; lia | exact Hn |].
  rewrite Hshr. rewrite shr_m_of_loc in Hm'. fold mq in Hm'. rewrite Hm'.
  set (m1 := round_nearest_even mq (loc_of_shr_record mrs')).
  assert (Hm1 : m1 = mq \/ m1 = mq + 1) by apply round_nearest_even_cases.
  destruct (Z.eq_dec m1 (2 ^ 53)) as [Hcarry|Hnocarry].
  - (* the rounding carried into a 54th bit *)
    rewrite Hcarry.
    exists (Z.to_pos (2 ^ 52)), (ex + n + 1), (mq * 2 ^ n).
    split.
    { change (Zdigits2 (2 ^ 53)) with 54.
      replace (fexp Float.prec Float.emax (54 + (ex + n)) - (ex + n)) with 1
        by (unfold fexp, emin, Float.prec, Float.emax; lia).
      cbn [shr shr_record_of_loc iter_pos]. cbn [shr_1 Z.pow Z.pow_pos Pos.iter Z.mul Pos.mul shr_m].
      destruct (Z.leb_spec (ex + n + 1) (Float.emax - Float.prec)) as [_|H];
        [reflexivity | unfold Float.emax, Float.prec in H; lia]. }
    split; [cbn; lia|]. split; [lia|]. split; [lia|]. split; [exact Hlo|]. split; [nia|].
    right. replace (ex + n + 1 - ex) with (Z.succ n) by lia.
    rewrite Z.pow_succ_r by lia.
    change (Zpos (Z.to_pos (2 ^ 52))) with (2 ^ 52).
    assert (mq = 2 ^ 53 - 1) by lia. nia.
  - (* no carry *)
    assert (Hm1' : 2 ^ 52 <= m1 < 2 ^ 53) by lia.
    destruct m1 as [|q|q] eqn:Em1; try lia.
    exists q, (ex + n), (mq * 2 ^ n).
    split.
    { rewrite (Zdigits2_unique (Zpos q) 53) by lia.
      replace (fexp Float.prec Float.emax (53 + (ex + n)) - (ex + n)) with 0
        by (unfold fexp, emin, Float.prec, Float.emax; lia).
      cbn [shr shr_record_of_loc shr_m].
      destruct (Z.leb_spec (ex + n) (Float.emax - Float.prec)) as [_|H];
        [reflexivity | unfold Float.emax, Float.prec in H; lia]. }
    split; [exact Hm1'|]. split; [lia|]. split; [lia|]. split; [exact Hlo|]. split; [nia|].
    replace (ex + n - ex) with n by lia.
    destruct Hm1 as [->| ->]; [left | right]; ring.
Qed.

(** The relative error of a rounded mantissa is at most [2 ^ -52]. *)
Lemma faithful_relative_error (v lo N x : Z) :
  0 < N -> lo <= x < lo + N -> 2 ^ 52 * N <= lo -> v = lo \/ v = lo + N ->
  2 ^ 52 * Z.abs (v - x) <= x.
Proof. intros HN Hx Hlo [-> | ->]; lia. Qed.

Lemma pos_iter_xO (p k : positive) : Zpos (Pos.iter xO p k) = Zpos p * 2 ^ Zpos k.
Proof.
  induction k as [|k IH] using Pos.peano_ind.
  - cbn [Pos.iter]. rewrite Pos2Z.inj_xO. change (2 ^ 1) with 2. ring.
  - rewrite Pos.iter_succ, Pos2Z.inj_xO, IH, Pos2Z.inj_succ, Z.pow_succ_r by lia. ring.
Qed.

(** [float(n)] is exact below [2 ^ 53]. *)
Lemma of_int_exact (n : Z) :
  0 < n < 2 ^ 53 ->
  exists (m : positive) (e : Z),
    Float.of_int n = Ok (S754_finite false m e) /\
    2 ^ 52 <= Zpos m < 2 ^ 53 /\ -52 <= e <= 0 /\ Zpos m = n * 2 ^ (- e).
Proof.
  intros Hn. destruct n as [|p|p]; try lia.
  pose proof (digits2_pos_bounds p) as Hd.
  unfold Float.of_int, binary_normalize, binary_round.
  set (d := Zpos (digits2_pos p)) in *.
  assert (Hd1 : 1 <= d <= 53).
  { split; [subst d; lia|].
    destruct (Z.le_gt_cases d 53) as [H|H]; [exact H|].
    assert (2 ^ 53 <= 2 ^ (d - 1)) by (apply Z.pow_le_mono_r; lia). lia. }
  replace (fexp Float.prec Float.emax (d + 0)) with (d - 53)
    by (unfold fexp, emin, Float.prec, Float.emax; lia).
  unfold shl_align.
  destruct (d - 53 - 0) as [|k|k] eqn:Ek; try lia.
  - assert (E52 : 2 ^ (d - 1) = 2 ^ 52) by (f_equal; lia).
    rewrite binary_round_aux_exact by lia.
    exists p, 0. repeat split; lia.
  - assert (Hk : Zpos k = 53 - d) by lia.
    assert (Hmz : Zpos (Pos.iter xO p k) = Zpos p * 2 ^ (53 - d))
      by (rewrite pos_iter_xO, Hk; reflexivity).
    assert (H2 : 2 ^ (d - 1) * 2 ^ (53 - d) = 2 ^ 52)
      by (rewrite <- Z.pow_add_r by lia; f_equal; lia).
    assert (H3 : 2 ^ d * 2 ^ (53 - d) = 2 ^ 53)
      by (rewrite <- Z.pow_add_r by lia; f_equal; lia).
    assert (Hp : 0 < 2 ^ (53 - d)) by (apply Z.pow_pos_nonneg; lia).
    assert (Hrange : 2 ^ 52 <= Zpos (Pos.iter xO p k) < 2 ^ 53).
    { rewrite Hmz, <- H2, <- H3. split.
      - apply Z.mul_le_mono_nonneg_r; lia.
      - apply Z.mul_lt_mono_pos_r; lia. }
    rewrite binary_round_aux_exact by lia.
    exists (Pos.iter xO p k), (d - 53).
    split; [reflexivity|]. split; [exact Hrange|]. split; [lia|].
    rewrite Hmz. f_equal. f_equal. lia.
Qed.

Lemma Zdigits2_le (z k : Z) : 0 < z < 2 ^ k -> 0 <= k -> Zdigits2 z <= k.
Proof.
  intros Hz Hk. destruct z as [|p|p]; try lia. cbn [Zdigits2].
  pose proof (digits2_pos_bounds p) as Hd.
  destruct (Z.le_gt_cases (Zpos (digits2_pos p)) k) as [H|H]; [exact H|].
  assert (2 ^ k <= 2 ^ (Zpos (digits2_pos p) - 1)) by (apply Z.pow_le_mono_r; lia).
  lia.
Qed.

(** [a / b] on two positive [int]s below [2 ^ 53]: the quotient
    [m * 2 ^ e], written over the denominator [2 ^ s], is within a relative
    error of [2 ^ -52] of [a / b]. *)
Lemma truediv_faithful (a b : Z) :
  0 < a < 2 ^ 53 -> 0 < b < 2 ^ 53 ->
  exists (m : positive) (e s : Z),
    Float.truediv a b = Ok (S754_finite false m e) /\
    2 ^ 52 <= Zpos m < 2 ^ 53 /\
    1 <= s <= 105 /\ - s <= e <= 2 - s /\
    2 ^ 52 * b <= a * 2 ^ s < 2 ^ 54 * b /\
    2 ^ 52 * Z.abs (Zpos m * 2 ^ (e + s) * b - a * 2 ^ s) <= a * 2 ^ s.
Proof.
  intros Ha Hb. unfold Float.truediv.
  destruct (Z.eqb_spec b 0) as [|_]; [lia|].
  destruct a as [|pa|pa]; try lia. destruct b as [|pb|pb]; try lia.
  cbn [Float.exact_int SFdiv xorb]. unfold SFdiv_core_binary. cbn [Zdigits2].
  pose proof (digits2_pos_bounds pa) as Hd1.
  pose proof (digits2_pos_bounds pb) as Hd2.
  pose proof (Zdigits2_le (Zpos pa) 53 Ha) as Hd1'.
  pose proof (Zdigits2_le (Zpos pb) 53 Hb) as Hd2'.
  cbn [Zdigits2] in Hd1', Hd2'.
  set (d1 := Zpos (digits2_pos pa)) in *. set (d2 := Zpos (digits2_pos pb)) in *.
  assert (Hd1p : 1 <= d1) by (subst d1; lia).
  assert (Hd2p : 1 <= d2) by (subst d2; lia).
  set (s := 53 + d2 - d1).
  replace (Z.min (fexp Float.prec Float.emax (d1 + 0 - (d2 + 0))) (0 - 0)) with (- s)
    by (unfold fexp, emin, Float.prec, Float.emax; subst s; lia).
  replace (0 - 0 - - s) with s by lia.
  assert (Hs : 1 <= s <= 105) by (subst s; lia).
  destruct s as [|ps|ps] eqn:Es; try lia. rewrite <- Es in *.
  rewrite Z.shiftl_mul_pow2 by lia.
  assert (H2s : 0 < 2 ^ s) by (apply Z.pow_pos_nonneg; lia).
  assert (Hlow : 2 ^ 52 * 2 ^ d2 <= Zpos pa * 2 ^ s).
  { replace (2 ^ 52 * 2 ^ d2) with (2 ^ (d1 - 1) * 2 ^ s)
      by (rewrite <- !Z.pow_add_r by lia; f_equal; lia).
    apply Z.mul_le_mono_nonneg_r; lia. }
  assert (Hhigh : Zpos pa * 2 ^ s < 2 ^ 54 * 2 ^ (d2 - 1)).
  { replace (2 ^ 54 * 2 ^ (d2 - 1)) with (2 ^ d1 * 2 ^ s)
      by (rewrite <- !Z.pow_add_r by lia; f_equal; lia).
    apply Z.mul_lt_mono_pos_r; lia. }
  set (m' := Zpos pa * 2 ^ s) in *.
  pose proof (Z.div_mod m' (Zpos pb) ltac:(lia)) as Hdm.
  pose proof (Z.mod_pos_bound m' (Zpos pb) ltac:(lia)) as Hr.
  unfold Z.div, Z.modulo in Hdm, Hr.
  destruct (Z.div_eucl m' (Zpos pb)) as [q r].
  assert (Hq : 2 ^ 52 <= q < 2 ^ 54) by nia.
  assert (Hdq : Zdigits2 q <= 54) by (apply Zdigits2_le; lia).
  destruct (binary_round_aux_faithful false q (- s) (new_location (Zpos pb) r)
              (Zdigits2 q - 53))
    as (m & e & lo & Hround & Hm & Hn & He & Hlo & Hlo52 & Hv); try lia.
  rewrite Hround. exists m, e, s.
  split; [reflexivity|]. split; [exact Hm|]. split; [exact Hs|]. split; [lia|].
  split; [lia|].
  replace (e - - s) with (e + s) in Hv by lia.
  set (N := 2 ^ (Zdigits2 q - 53)) in *.
  assert (HN : 0 < N) by (apply Z.pow_pos_nonneg; lia).
  set (v := Zpos m * 2 ^ (e + s)) in *.
  assert (H1 : Zpos pb * (q - lo + 1) <= Zpos pb * N)
    by (apply Z.mul_le_mono_nonneg_l; lia).
  assert (H2 : Zpos pb * (2 ^ 52 * N) <= Zpos pb * lo)
    by (apply Z.mul_le_mono_nonneg_l; lia).
  assert (H3 : Zpos pb * lo <= Zpos pb * q)
    by (apply Z.mul_le_mono_nonneg_l; lia).
  destruct Hv as [Hv|Hv]; rewrite Hv; lia.
Qed.

(** The product of two normal numbers is within a relative error of
    [2 ^ -52] of the exact product of the mantissas. *)
Lemma mul_faithful (m1 m2 : positive) (e1 e2 : Z) :
  2 ^ 52 <= Zpos m1 < 2 ^ 53 -> 2 ^ 52 <= Zpos m2 < 2 ^ 53 ->
  -1074 <= e1 + e2 <= 917 ->
  exists (m : positive) (e : Z),
    Float.mul (S754_finite false m1 e1) (S754_finite false m2 e2) = S754_finite false m e /\
    2 ^ 52 <= Zpos m < 2 ^ 53 /\
    e1 + e2 + 52 <= e <= e1 + e2 + 54 /\
    2 ^ 52 * Z.abs (Zpos m * 2 ^ (e - (e1 + e2)) - Zpos m1 * Zpos m2) <= Zpos m1 * Zpos m2.
Proof.
  intros Hm1 Hm2 He. unfold Float.mul. cbn [SFmul xorb].
  rewrite Pos2Z.inj_mul.
  assert (HP : 2 ^ 104 <= Zpos m1 * Zpos m2 < 2 ^ 106) by nia.
  assert (Hd : 105 <= Zdigits2 (Zpos m1 * Zpos m2) <= 106).
  { split; [|apply Zdigits2_le; lia].
    destruct (Zpos m1 * Zpos m2) as [|p|p] eqn:Ep; try lia. cbn [Zdigits2].
    pose proof (digits2_pos_bounds p) as Hp.
    destruct (Z.le_gt_cases 105 (Zpos (digits2_pos p))) as [H|H]; [exact H|].
    assert (2 ^ Zpos (digits2_pos p) <= 2 ^ 104) by (apply Z.pow_le_mono_r; lia).
    lia. }
  destruct (binary_round_aux_faithful false (Zpos m1 * Zpos m2) (e1 + e2) loc_Exact
              (Zdigits2 (Zpos m1 * Zpos m2) - 53))
    as (m & e & lo & Hround & Hm & Hn & He' & Hlo & Hlo52 & Hv); try lia.
  rewrite Hround. exists m, e.
  split; [reflexivity|]. split; [exact Hm|]. split; [lia|].
  apply (faithful_relative_error _ lo (2 ^ (Zdigits2 (Zpos m1 * Zpos m2) - 53)));
    try assumption.
  apply Z.pow_pos_nonneg; lia.
Qed.

(** [round(a / 3)] for [0 <= a < 2 ^ 50]: no exception, and the result is
    the integer nearest to [a / 3] (it is within 1/3 of it). *)
Lemma round_third (a : Z) :
  0 <= a < 2 ^ 50 ->
  exists r : Z,
    (x <- Float.truediv a 3 ;; Float.round x) = Ok r /\ Z.abs (3 * r - a) <= 1.
Proof.
  intros Ha. destruct (Z.eq_dec a 0) as [->|Hnz].
  { exists 0. split; [reflexivity | lia]. }
  destruct (truediv_faithful a 3) as (m & e & s & Hdiv & Hm & Hs & He & Hscale & Herr);
    try lia.
  rewrite Hdiv. cbn [bind Float.round].
  set (U := 2 ^ (e + s)) in *. set (S := 2 ^ s) in *.
  assert (HU : 0 < U) by (apply Z.pow_pos_nonneg; lia).
  assert (HaS : a * S <= (2 ^ 50 - 1) * S)
    by (apply Z.mul_le_mono_nonneg_r; subst S; [apply Z.pow_nonneg|]; lia).
  assert (HmU : 2 ^ 52 * U <= Zpos m * U)
    by (apply Z.mul_le_mono_nonneg_r; lia).
  (* the exponent is at most -3 *)
  assert (He3 : e <= -3).
  { destruct (Z.le_gt_cases e (-3)) as [H|H]; [exact H|exfalso].
    assert (HS : S <= 4 * U).
    { subst S U. change 4 with (2 ^ 2). rewrite <- Z.pow_add_r by lia.
      apply Z.pow_le_mono_r; lia. }
    lia. }
  destruct (Z.leb_spec 0 e) as [H|_]; [lia|].
  set (d := 2 ^ (- e)).
  assert (Hd8 : 8 <= d).
  { subst d. change 8 with (2 ^ 3). apply Z.pow_le_mono_r; lia. }
  assert (HS : S = U * d).
  { subst S U d. rewrite <- Z.pow_add_r by lia. f_equal. lia. }
  (* the error, in units of [1 / d] *)
  assert (Herr' : 4 * Z.abs (3 * Zpos m - a * d) < d).
  { rewrite HS in Herr.
    replace (Zpos m * U * 3 - a * (U * d)) with (U * (3 * Zpos m - a * d)) in Herr by ring.
    rewrite Z.abs_mul, (Z.abs_eq U) in Herr by lia.
    replace (2 ^ 52 * (U * Z.abs (3 * Zpos m - a * d)))
      with (U * (2 ^ 52 * Z.abs (3 * Zpos m - a * d))) in Herr by ring.
    replace (a * (U * d)) with (U * (a * d)) in Herr by ring.
    apply Z.mul_le_mono_pos_l in Herr; [|exact HU].
    assert (a * d <= (2 ^ 50 - 1) * d) by (apply Z.mul_le_mono_nonneg_r; lia).
    lia. }
  pose proof (Z.div_mod (Zpos m) d ltac:(lia)) as Hdm.
  pose proof (Z.mod_pos_bound (Zpos m) d ltac:(lia)) as Hr.
  set (q := Zpos m / d) in *. set (r := Zpos m mod d) in *.
  assert (Hcancel : forall z : Z, -2 * d < z * d < 2 * d -> Z.abs z <= 1).
  { intros z [Hl Hu]. apply Z.mul_lt_mono_pos_r in Hl, Hu; lia. }
  eexists. split; [reflexivity|]. cbn [cond_Zopp].
  destruct (Z.compare_spec (2 * r) d) as [Hc|Hc|Hc]; [destruct (Z.even q)| |];
    apply Hcancel; lia.
Qed.

(** [int(x)] of a positive normal number [m * 2 ^ e], read in units of
    [2 ^ - k] for any [k] that covers the exponent. *)
Lemma to_int_floor (m : positive) (e k : Z) :
  0 <= k -> 0 <= e + k ->
  exists n : Z,
    Float.to_int (S754_finite false m e) = Ok n /\
    n * 2 ^ k <= Zpos m * 2 ^ (e + k) < (n + 1) * 2 ^ k.
Proof.
  intros Hk Hek. cbn [Float.to_int cond_Zopp].
  eexists. split; [reflexivity|].
  destruct (Z.leb_spec 0 e) as [He|He].
  - rewrite Z.pow_add_r by lia.
    assert (0 < 2 ^ k) by (apply Z.pow_pos_nonneg; lia). nia.
  - set (d := 2 ^ (- e)).
    assert (Hd : 0 < d) by (apply Z.pow_pos_nonneg; lia).
    assert (Hp : 0 < 2 ^ (e + k)) by (apply Z.pow_pos_nonneg; lia).
    assert (H2k : 2 ^ k = d * 2 ^ (e + k))
      by (subst d; rewrite <- Z.pow_add_r by lia; f_equal; lia).
    pose proof (Z.div_mod (Zpos m) d ltac:(lia)) as Hdm.
    pose proof (Z.mod_pos_bound (Zpos m) d Hd) as Hr.
    rewrite H2k. nia.
Qed.

(** The proportional resize for
    positive sizes with [orig_height * target_width <= 2 ^ 50]: no
    exception, and [new_height <= orig_height * target_width / orig_width
    <= new_height + 1]. *)
Lemma proportional_size_bounds (orig_width orig_height target_width : Z) :
  0 < orig_width < 2 ^ 53 -> 0 < orig_height -> 0 < target_width ->
  orig_height * target_width <= 2 ^ 50 ->
  exists new_height : Z,
    proportional_size (orig_width, orig_height) target_width = Ok (target_width, new_height) /\
    new_height * orig_width <= orig_height * target_width
      <= (new_height + 1) * orig_width.
Proof.
  intros How Hoh Htw Hprod.
  assert (Htw50 : target_width <= 2 ^ 50) by nia.
  assert (Hoh50 : orig_height <= 2 ^ 50) by nia.
  unfold proportional_size.
  destruct (truediv_faithful target_width orig_width)
    as (mq & eq & s & Hdiv & Hmq & Hs & Heq & Hscale & Herr); try lia.
  destruct (of_int_exact orig_height) as (mh & eh & Hof & Hmh & Heh & Hmh'); try lia.
  rewrite Hdiv, Hof. cbn [bind].
  set (S := 2 ^ s) in *.
  assert (HS : 0 < S) by (apply Z.pow_pos_nonneg; lia).
  (* the quotient has a negative exponent *)
  assert (Hs2 : 2 <= s).
  { destruct (Z.le_gt_cases 2 s) as [H|H]; [exact H|].
    assert (S <= 2 ^ 1) by (apply Z.pow_le_mono_r; lia).
    change (2 ^ 1) with 2 in *. nia. }
  destruct (mul_faithful mh mq eh eq) as (m & e & Hmul & Hm & He & Hperr); try lia.
  rewrite Hmul.
  set (K := - (eh + eq)).
  destruct (to_int_floor m e K) as (nh & Hint & Hfloor); try (subst K; lia).
  exists nh. rewrite Hint. cbn [bind]. split; [reflexivity|].
  replace (e - (eh + eq)) with (e + K) in Hperr by (subst K; lia).
  set (V := Zpos m * 2 ^ (e + K)) in *.
  set (A := 2 ^ (- eh)) in *. set (B := 2 ^ (eq + s)) in *.
  set (Vq := Zpos mq * B) in *.
  assert (HA : 0 < A) by (apply Z.pow_pos_nonneg; lia).
  assert (HB : 0 < B) by (apply Z.pow_pos_nonneg; lia).
  assert (HKB : 2 ^ K * B = A * S).
  { subst K B A S. rewrite <- !Z.pow_add_r by lia. f_equal. lia. }
  set (P := Zpos mh * Zpos mq) in *.
  assert (HPB : P * B = orig_height * A * Vq) by (subst P Vq; rewrite Hmh'; ring).
  set (T := 2 ^ K) in *.
  assert (HT : 0 < T) by (apply Z.pow_pos_nonneg; subst K; lia).
  set (N := 2 ^ 52) in *.
  assert (HN : N = 4503599627370496) by reflexivity.
  set (W := orig_width) in *. set (H := orig_height) in *. set (TW := target_width) in *.
  assert (HVP : N * V <= (N + 1) * P /\ (N - 1) * P <= N * V) by lia.
  assert (HVqW : N * (Vq * W) <= (N + 1) * (TW * S) /\ (N - 1) * (TW * S) <= N * (Vq * W)) by lia.
  clearbody V Vq P T A B S N. clear Hperr Herr Hmul Hint.
  split.
  - (* new_height * orig_width <= orig_height * target_width *)
    assert (H1 : N * nh * T <= (N + 1) * P) by nia.
    assert (H2 : N * nh * (A * S) <= (N + 1) * (H * A * Vq)).
    { rewrite <- HKB, <- HPB.
      replace (N * nh * (T * B)) with (N * nh * T * B) by ring.
      replace ((N + 1) * (P * B)) with ((N + 1) * P * B) by ring.
      apply Z.mul_le_mono_nonneg_r; lia. }
    assert (H3 : N * nh * S <= (N + 1) * H * Vq).
    { apply (Z.mul_le_mono_pos_l _ _ A HA).
      replace (A * (N * nh * S)) with (N * nh * (A * S)) by ring.
      replace (A * ((N + 1) * H * Vq)) with ((N + 1) * (H * A * Vq)) by ring.
      exact H2. }
    assert (H4 : N * (N * nh * S * W) <= (N + 1) * H * ((N + 1) * (TW * S))).
    { apply Z.le_trans with ((N + 1) * H * (N * (Vq * W))).
      - replace (N * (N * nh * S * W)) with (N * nh * S * (N * W)) by ring.
        replace ((N + 1) * H * (N * (Vq * W))) with ((N + 1) * H * Vq * (N * W)) by ring.
        apply Z.mul_le_mono_nonneg_r; lia.
      - apply Z.mul_le_mono_nonneg_l; lia. }
    assert (H5 : N * N * (nh * W) <= (N + 1) * (N + 1) * (H * TW)).
    { apply (Z.mul_le_mono_pos_l _ _ S HS).
      replace (S * (N * N * (nh * W))) with (N * (N * nh * S * W)) by ring.
      replace (S * ((N + 1) * (N + 1) * (H * TW)))
        with ((N + 1) * H * ((N + 1) * (TW * S))) by ring.
      exact H4. }
    change (2 ^ 50) with 1125899906842624 in Hprod. lia.
  - (* orig_height * target_width <= (new_height + 1) * orig_width *)
    assert (H1 : (N - 1) * P + 1 <= N * (nh + 1) * T) by nia.
    assert (H2 : (N - 1) * (H * A * Vq) < N * (nh + 1) * (A * S)).
    { rewrite <- HKB, <- HPB.
      replace (N * (nh + 1) * (T * B)) with (N * (nh + 1) * T * B) by ring.
      replace ((N - 1) * (P * B)) with ((N - 1) * P * B) by ring.
      apply Z.mul_lt_mono_pos_r; lia. }
    assert (H3 : (N - 1) * H * Vq < N * (nh + 1) * S).
    { apply (Z.mul_lt_mono_pos_l A _ _ HA).
      replace (A * (N * (nh + 1) * S)) with (N * (nh + 1) * (A * S)) by ring.
      replace (A * ((N - 1) * H * Vq)) with ((N - 1) * (H * A * Vq)) by ring.
      exact H2. }
    assert (H4 : (N - 1) * H * ((N - 1) * (TW * S)) < N * (N * (nh + 1) * S * W)).
    { apply Z.le_lt_trans with ((N - 1) * H * (N * (Vq * W))).
      - apply Z.mul_le_mono_nonneg_l; lia.
      - replace (N * (N * (nh + 1) * S * W)) with (N * (nh + 1) * S * (N * W)) by ring.
        replace ((N - 1) * H * (N * (Vq * W))) with ((N - 1) * H * Vq * (N * W)) by ring.
        apply Z.mul_lt_mono_pos_r; lia. }
    assert (H5 : (N - 1) * (N - 1) * (H * TW) < N * N * ((nh + 1) * W)).
    { apply (Z.mul_lt_mono_pos_l S _ _ HS).
      replace (S * (N * N * ((nh + 1) * W))) with (N * (N * (nh + 1) * S * W)) by ring.
      replace (S * ((N - 1) * (N - 1) * (H * TW)))
        with ((N - 1) * H * ((N - 1) * (TW * S))) by ring.
      exact H4. }
    change (2 ^ 50) with 1125899906842624 in Hprod. lia.
Qed.

(** ** [sorted(set(...))] and [enumerate] *)

Lemma insert_uniq_In (x y : Z) (l : list Z) :
  In y (insert_uniq x l) <-> y = x \/ In y l.
Proof.
  induction l as [|z rest IH]; cbn [insert_uniq].
  - cbn. intuition.
  - destruct (Z.compare_spec x z) as [->|Hlt|Hgt]; cbn [In].
    + intuition.
    + intuition.
    + rewrite IH. intuition.
Qed.

Lemma insert_uniq_sorted (x : Z) (l : list Z) :
  StronglySorted Z.lt l -> StronglySorted Z.lt (insert_uniq x l).
Proof.
  induction 1 as [|z rest Hs IH Hall]; cbn [insert_uniq].
  - repeat constructor.
  - destruct (Z.compare_spec x z) as [->|Hlt|Hgt].
    + now constructor.
    + constructor; [now constructor|].
      constructor; [exact Hlt|].
      eapply Forall_impl; [|exact Hall]. intros a Ha; cbn in Ha. lia.
    + constructor; [exact IH|].
      apply Forall_forall. intros a Ha. apply insert_uniq_In in Ha.
      destruct Ha as [->|Ha]; [lia|].
      rewrite Forall_forall in Hall. now apply Hall.
Qed.

Lemma insert_uniq_length (x : Z) (l : list Z) :
  (len l <= len (insert_uniq x l) <= S (len l))%nat.
Proof.
  induction l as [|z rest IH]; cbn [insert_uniq]; [cbn; lia|].
  destruct (x ?= z); cbn [List.length] in *; lia.
Qed.

(** [sorted(set(l))] holds exactly the elements of [l], in strictly
    ascending order. *)
Lemma sorted_set_In (l : list Z) (y : Z) : In y (sorted_set l) <-> In y l.
Proof.
  induction l as [|x rest IH]; [reflexivity|].
  cbn [sorted_set fold_right]. fold (sorted_set rest).
  rewrite insert_uniq_In, IH. cbn. intuition.
Qed.

Lemma sorted_set_sorted (l : list Z) : StronglySorted Z.lt (sorted_set l).
Proof.
  induction l as [|x rest IH]; [constructor|].
  cbn [sorted_set fold_right]. now apply insert_uniq_sorted.
Qed.

Lemma sorted_set_length4 (a b c d : Z) :
  (1 <= len (sorted_set [a; b; c; d]) <= 4)%nat.
Proof.
  cbn [sorted_set fold_right].
  pose proof (insert_uniq_length d []) as H1.
  pose proof (insert_uniq_length c (insert_uniq d [])) as H2.
  pose proof (insert_uniq_length b (insert_uniq c (insert_uniq d []))) as H3.
  pose proof (insert_uniq_length a (insert_uniq b (insert_uniq c (insert_uniq d [])))) as H4.
  cbn [insert_uniq List.length] in *. lia.
Qed.

Lemma enumerate_snd {A : Type} (l : list A) : map snd (enumerate l) = l.
Proof.
  unfold enumerate. generalize 0%nat.
  induction l as [|a rest IH]; intros start; [reflexivity|].
  cbn. now rewrite IH.
Qed.

Lemma enumerate_fst {A : Type} (l : list A) : map fst (enumerate l) = seq 0 (len l).
Proof.
  unfold enumerate. generalize 0%nat.
  induction l as [|a rest IH]; intros start; [reflexivity|].
  cbn. now rewrite IH.
Qed.

(** ** The layout of [process_image] *)

Lemma crops_of_images resized pal output_base target_width target_height positions :
  map saved_image (crops_of resized pal output_base target_width target_height positions) =
  map (fun y => Crop resized (0, y, target_width, y + target_height)) positions.
Proof.
  unfold crops_of. rewrite map_map.
  rewrite <- (enumerate_snd positions) at 2. rewrite map_map.
  apply map_ext. now intros [i y].
Qed.

Lemma crops_of_names resized pal output_base target_width target_height positions :
  map out_name (crops_of resized pal output_base target_width target_height positions) =
  map (crop_out_name output_base (len positions)) (seq 0 (len positions)).
Proof.
  unfold crops_of. rewrite map_map.
  rewrite <- (enumerate_fst positions). rewrite map_map.
  apply map_ext. now intros [i y].
Qed.

(** The tall branch: for [y_max < 2 ^ 49] the crop positions are computed
    without exception, from the integers nearest to [y_max / 3] and
    [2 * y_max / 3]. *)
Lemma crop_positions_nearest (y_max : Z) :
  0 <= y_max < 2 ^ 49 ->
  exists p1 p2 : Z,
    Z.abs (3 * p1 - y_max) <= 1 /\ Z.abs (3 * p2 - 2 * y_max) <= 1 /\
    crop_positions y_max = Ok (sorted_set [0; p1; p2; y_max]).
Proof.
  intros Hy. unfold crop_positions.
  destruct (round_third y_max) as (p1 & H1 & Hp1);
    [change (2 ^ 49) with 562949953421312 in Hy; change (2 ^ 50) with 1125899906842624; lia|].
  destruct (round_third (2 * y_max)) as (p2 & H2 & Hp2);
    [change (2 ^ 49) with 562949953421312 in Hy; change (2 ^ 50) with 1125899906842624; lia|].
  exists p1, p2. split; [exact Hp1|]. split; [exact Hp2|].
  destruct (Float.truediv y_max 3) as [x1|]; [|discriminate H1]. cbn [bind] in *.
  rewrite H1. cbn [bind].
  destruct (Float.truediv (2 * y_max) 3) as [x2|]; [|discriminate H2]. cbn [bind] in *.
  rewrite H2. reflexivity.
Qed.

Lemma process_image_tall (orig_width orig_height target_width target_height new_height : Z)
    (act_data : list byte) (output_base : string) :
  (768 <= len act_data)%nat ->
  proportional_size (orig_width, orig_height) target_width = Ok (target_width, new_height) ->
  target_height <= new_height -> new_height - target_height < 2 ^ 49 ->
  let y_max := new_height - target_height in
  let resized := (target_width, new_height) in
  let pal := putpalette (firstn 768 act_data) in
  exists p1 p2 : Z,
    Z.abs (3 * p1 - y_max) <= 1 /\ Z.abs (3 * p2 - 2 * y_max) <= 1 /\
    process_image (orig_width, orig_height) act_data output_base target_width target_height =
      Ok (crops_of resized pal output_base target_width target_height
            (sorted_set [0; p1; p2; y_max]) ++
          [ {| saved_image := ForcedFromResized resized (target_width, target_height);
               out_name := (output_base ++ "_resized.bmp")%string;
               pal_img := pal |} ]).
Proof.
  intros Hact Hnh Htall Hbound y_max resized pal.
  destruct (crop_positions_nearest y_max) as (p1 & p2 & Hp1 & Hp2 & Hpos);
    [subst y_max; lia|].
  exists p1, p2. split; [exact Hp1|]. split; [exact Hp2|].
  unfold process_image. rewrite Hnh. cbn [bind].
  rewrite load_act_palette_ok by exact Hact. cbn [bind].
  destruct (Z.leb_spec target_height new_height) as [_|H]; [|lia].
  fold y_max. rewrite Hpos. cbn [bind]. reflexivity.
Qed.


(** C4, as the claim states it, fails: for a source of 3200 x 2403 and a
    target width of 800 the exact quotient is 600.75; the code computes the
    height 600, which is not an integer nearest to it (601 is). *)
Lemma proportional_size_truncates :
  proportional_size (3200, 2403) 800 = Ok (800, 600) /\
  ~ nearest_int (2403 * 800) 3200 600 /\
  nearest_int (2403 * 800) 3200 601.
Proof.
  split; [vm_compute; reflexivity|].
  unfold nearest_int. split; [intros H; vm_compute in H; now apply H | vm_compute; discriminate].
Qed.

(** C4 (amended): for positive sizes with [sourceH * targetW <= 2 ^ 50] and
    [sourceW < 2 ^ 53] the proportional resize is computed without
    exception, its width is [targetW], and its height [h] is the
    double-precision product [sourceH * (targetW / sourceW)] truncated
    toward zero: [h <= sourceH * targetW / sourceW <= h + 1], so [h] is the
    quotient rounded down, or one less when the quotient is an integer; it
    is not rounded to the nearest integer. *)
Theorem proportional_size_rounds_down (orig_width orig_height target_width : Z) :
  0 < orig_width < 2 ^ 53 -> 0 < orig_height -> 0 < target_width ->
  orig_height * target_width <= 2 ^ 50 ->
  exists new_height : Z,
    proportional_size (orig_width, orig_height) target_width = Ok (target_width, new_height) /\
    new_height * orig_width <= orig_height * target_width /\
    orig_height * target_width <= (new_height + 1) * orig_width /\
    (orig_height * target_width mod orig_width <> 0 ->
       new_height = orig_height * target_width / orig_width).
Proof.
  intros How Hoh Htw Hprod.
  destruct (proportional_size_bounds orig_width orig_height target_width How Hoh Htw Hprod)
    as (nh & Hsize & Hlo & Hhi).
  exists nh. repeat split; try assumption.
  intros Hmod.
  pose proof (Z.div_mod (orig_height * target_width) orig_width ltac:(lia)) as Hdm.
  pose proof (Z.mod_pos_bound (orig_height * target_width) orig_width ltac:(lia)) as Hr.
  nia.
Qed.

(** A witness of C4 (amended): the source 3200 x 2403 at width 800. *)
Lemma proportional_size_rounds_down_witness :
  exists new_height : Z,
    proportional_size (3200, 2403) 800 = Ok (800, new_height) /\
    new_height * 3200 <= 2403 * 800 /\
    2403 * 800 <= (new_height + 1) * 3200 /\
    ((2403 * 800) mod 3200 <> 0 -> new_height = 2403 * 800 / 3200).
Proof.
  apply (proportional_size_rounds_down 3200 2403 800); vm_compute; intuition discriminate.
Defined.

(** The quotient can indeed come out one less than the exact integer
    quotient: a source of 20 x 100 at width 87 has the exact height 435,
    and 100 * (87 / 20) is 434.99999999999994 in double precision. *)
Lemma proportional_size_one_less :
  proportional_size (20, 100) 87 = Ok (87, 434) /\ 100 * 87 = 435 * 20.
Proof. split; vm_compute; reflexivity. Qed.

(** C3: in the tall branch (proportional height at least [targetH], and
    [yMax = proportionalHeight - targetH] below [2 ^ 49]) the plan is the
    crops followed by exactly one forced resize of the resized image; the
    crop offsets are the distinct values among 0, the integer nearest to
    [yMax / 3], the integer nearest to [2 * yMax / 3] and [yMax], in
    strictly ascending order; every rectangle is [targetW x targetH]. *)
Theorem tall_image_plan
    (orig_width orig_height target_width target_height new_height : Z)
    (act_data : list byte) (output_base : string) :
  (768 <= len act_data)%nat ->
  proportional_size (orig_width, orig_height) target_width = Ok (target_width, new_height) ->
  target_height <= new_height -> new_height - target_height < 2 ^ 49 ->
  let y_max := new_height - target_height in
  exists (p1 p2 : Z) (offsets : list Z) (crops : list saved) (forced : saved),
    process_image (orig_width, orig_height) act_data output_base target_width target_height =
      Ok (crops ++ [forced]) /\
    nearest_int y_max 3 p1 /\ nearest_int (2 * y_max) 3 p2 /\
    StronglySorted Z.lt offsets /\
    (forall y, In y offsets <-> In y [0; p1; p2; y_max]) /\
    map saved_image crops =
      map (fun y => Crop (target_width, new_height)
                         (0, y, target_width, y + target_height)) offsets /\
    saved_image forced =
      ForcedFromResized (target_width, new_height) (target_width, target_height) /\
    Forall (fun s => picture_size (saved_image s) = (target_width, target_height))
           (crops ++ [forced]).
Proof.
  intros Hact Hsize Htall Hbound y_max.
  destruct (process_image_tall orig_width orig_height target_width target_height new_height
              act_data output_base Hact Hsize Htall Hbound)
    as (p1 & p2 & Hp1 & Hp2 & Hplan).
  fold y_max in Hp1, Hp2, Hplan.
  exists p1, p2, (sorted_set [0; p1; p2; y_max]).
  eexists. eexists. split; [exact Hplan|].
  split; [unfold nearest_int; lia|]. split; [unfold nearest_int; lia|].
  split; [apply sorted_set_sorted|]. split; [apply sorted_set_In|].
  split; [apply crops_of_images|]. split; [reflexivity|].
  apply Forall_app. split.
  - apply Forall_forall. intros s Hs.
    apply (in_map saved_image) in Hs. rewrite crops_of_images in Hs.
    apply in_map_iff in Hs. destruct Hs as (y & <- & _).
    cbn [picture_size]. f_equal; lia.
  - repeat constructor.
Qed.

(** A witness of C3, the example of the specification: a source of
    1600 x 1200 and a target of 800 x 480 give the proportional size
    800 x 600, [yMax = 120], the offsets 0, 40, 80, 120 and five
    rectangles. *)
Lemma tall_image_plan_witness :
  proportional_size (1600, 1200) 800 = Ok (800, 600) /\
  crop_positions (600 - 480) = Ok [0; 40; 80; 120] /\
  summary (process_image (1600, 1200) blank_act "photo" 800 480) =
    Ok [ (Crop (800, 600) (0, 0, 800, 480), "photo_top.bmp"%string);
         (Crop (800, 600) (0, 40, 800, 520), "photo_upper.bmp"%string);
         (Crop (800, 600) (0, 80, 800, 560), "photo_lower.bmp"%string);
         (Crop (800, 600) (0, 120, 800, 600), "photo_bottom.bmp"%string);
         (ForcedFromResized (800, 600) (800, 480), "photo_resized.bmp"%string) ] /\
  exists (p1 p2 : Z) (offsets : list Z) (crops : list saved) (forced : saved),
    process_image (1600, 1200) blank_act "photo" 800 480 = Ok (crops ++ [forced]) /\
    nearest_int (600 - 480) 3 p1 /\ nearest_int (2 * (600 - 480)) 3 p2 /\
    StronglySorted Z.lt offsets /\
    (forall y, In y offsets <-> In y [0; p1; p2; 600 - 480]) /\
    map saved_image crops =
      map (fun y => Crop (800, 600) (0, y, 800, y + 480)) offsets /\
    saved_image forced = ForcedFromResized (800, 600) (800, 480) /\
    Forall (fun s => picture_size (saved_image s) = (800, 480)) (crops ++ [forced]).
Proof.
  split; [vm_compute; reflexivity|]. split; [vm_compute; reflexivity|].
  split; [vm_compute; reflexivity|].
  apply (tall_image_plan 1600 1200 800 480 600 blank_act "photo").
  - unfold blank_act. rewrite repeat_length. apply Nat.le_refl.
  - vm_compute; reflexivity.
  - vm_compute; discriminate.
  - vm_compute; reflexivity.
Defined.

(** C6: when the proportional height is below [targetH], the plan is a
    single forced resize of the original image to [targetW x targetH],
    saved under the base name, and holds no crop. *)
Theorem short_image_plan
    (orig_width orig_height target_width target_height new_height : Z)
    (act_data : list byte) (output_base : string) :
  (768 <= len act_data)%nat ->
  proportional_size (orig_width, orig_height) target_width = Ok (target_width, new_height) ->
  new_height < target_height ->
  process_image (orig_width, orig_height) act_data output_base target_width target_height =
    Ok [ {| saved_image := ForcedFromOriginal (target_width, target_height);
            out_name := (output_base ++ ".bmp")%string;
            pal_img := putpalette (firstn 768 act_data) |} ].
Proof.
  intros Hact Hsize Hshort. unfold process_image. rewrite Hsize. cbn [bind].
  rewrite load_act_palette_ok by exact Hact. cbn [bind].
  destruct (Z.leb_spec target_height new_height) as [H|_]; [lia | reflexivity].
Qed.

(** A witness of C6, the example of the specification: a source of
    800 x 300 and a target of 800 x 480 (proportional height 300). *)
Lemma short_image_plan_witness :
  proportional_size (800, 300) 800 = Ok (800, 300) /\
  process_image (800, 300) blank_act "photo" 800 480 =
    Ok [ {| saved_image := ForcedFromOriginal (800, 480);
            out_name := "photo.bmp"%string;
            pal_img := putpalette (firstn 768 blank_act) |} ].
Proof.
  split; [vm_compute; reflexivity|].
  apply (short_image_plan 800 300 800 480 300 blank_act "photo").
  - unfold blank_act. rewrite repeat_length. apply Nat.le_refl.
  - vm_compute; reflexivity.
  - vm_compute; reflexivity.
Defined.

(** C7, as the claim states it, fails for a single crop window: with a
    source of 800 x 480 and a target of 800 x 480, [yMax = 0], the four
    offsets collapse to one, and that crop is saved as "photo.bmp", with no
    label, not as "photo_top.bmp". *)
Lemma single_crop_has_no_label :
  crop_positions (480 - 480) = Ok [0] /\
  summary (process_image (800, 480) blank_act "photo" 800 480) =
    Ok [ (Crop (800, 480) (0, 0, 800, 480), "photo.bmp"%string);
         (ForcedFromResized (800, 480) (800, 480), "photo_resized.bmp"%string) ] /\
  crop_out_name "photo" 1 0 <> "photo_top.bmp"%string.
Proof.
  split; [vm_compute; reflexivity|]. split; [vm_compute; reflexivity|].
  vm_compute. discriminate.
Qed.

(** C7 (amended): in the tall branch there are [k] crop windows with
    [1 <= k <= 4], at strictly ascending offsets; for [k >= 2] their output
    names carry, in that order, the first [k] labels of "top", "upper",
    "lower", "bottom"; a single crop window ([k = 1]) carries no label and
    is saved under the base name. *)
Theorem crop_labels
    (orig_width orig_height target_width target_height new_height : Z)
    (act_data : list byte) (output_base : string) :
  (768 <= len act_data)%nat ->
  proportional_size (orig_width, orig_height) target_width = Ok (target_width, new_height) ->
  target_height <= new_height -> new_height - target_height < 2 ^ 49 ->
  exists (offsets : list Z) (crops : list saved) (forced : saved),
    process_image (orig_width, orig_height) act_data output_base target_width target_height =
      Ok (crops ++ [forced]) /\
    StronglySorted Z.lt offsets /\
    map saved_image crops =
      map (fun y => Crop (target_width, new_height)
                         (0, y, target_width, y + target_height)) offsets /\
    (1 <= len offsets <= 4)%nat /\
    map out_name crops =
      if (len offsets =? 1)%nat then [(output_base ++ ".bmp")%string]
      else map (fun suffix => (output_base ++ "_" ++ suffix ++ ".bmp")%string)
               (firstn (len offsets) suffixes).
Proof.
  intros Hact Hsize Htall Hbound.
  destruct (process_image_tall orig_width orig_height target_width target_height new_height
              act_data output_base Hact Hsize Htall Hbound)
    as (p1 & p2 & _ & _ & Hplan).
  set (offsets := sorted_set [0; p1; p2; new_height - target_height]) in *.
  exists offsets. eexists. eexists. split; [exact Hplan|].
  split; [apply sorted_set_sorted|]. split; [apply crops_of_images|].
  pose proof (sorted_set_length4 0 p1 p2 (new_height - target_height)) as Hk.
  fold offsets in Hk. split; [exact Hk|].
  rewrite crops_of_names.
  destruct (len offsets) as [|[|[|[|[|k]]]]]; try lia; reflexivity.
Qed.

(** A witness of C7 (amended): the four labelled crops of the source
    1600 x 1200. *)
Lemma crop_labels_witness :
  summary (process_image (1600, 1200) blank_act "photo" 800 480) =
    Ok [ (Crop (800, 600) (0, 0, 800, 480), "photo_top.bmp"%string);
         (Crop (800, 600) (0, 40, 800, 520), "photo_upper.bmp"%string);
         (Crop (800, 600) (0, 80, 800, 560), "photo_lower.bmp"%string);
         (Crop (800, 600) (0, 120, 800, 600), "photo_bottom.bmp"%string);
         (ForcedFromResized (800, 600) (800, 480), "photo_resized.bmp"%string) ] /\
  exists (offsets : list Z) (crops : list saved) (forced : saved),
    process_image (1600, 1200) blank_act "photo" 800 480 = Ok (crops ++ [forced]) /\
    StronglySorted Z.lt offsets /\
    map saved_image crops =
      map (fun y => Crop (800, 600) (0, y, 800, y + 480)) offsets /\
    (1 <= len offsets <= 4)%nat /\
    map out_name crops =
      if (len offsets =? 1)%nat then [("photo" ++ ".bmp")%string]
      else map (fun suffix => ("photo" ++ "_" ++ suffix ++ ".bmp")%string)
               (firstn (len offsets) suffixes).
Proof.
  split; [vm_compute; reflexivity|].
  apply (crop_labels 1600 1200 800 480 600 blank_act "photo").
  - unfold blank_act. rewrite repeat_length. apply Nat.le_refl.
  - vm_compute; reflexivity.
  - vm_compute; discriminate.
  - vm_compute; reflexivity.
Defined.

(** C10: in the tall branch (with [yMax] below [2 ^ 49]) every crop box of
    the plan is [(0, y, targetW, y + targetH)] with [0 <= y] and
    [y + targetH <= proportionalHeight], taken from the resized image of
    size [targetW x proportionalHeight]: no crop reads outside it. *)
Theorem crops_within_resized
    (orig_width orig_height target_width target_height new_height : Z)
    (act_data : list byte) (output_base : string) :
  (768 <= len act_data)%nat ->
  proportional_size (orig_width, orig_height) target_width = Ok (target_width, new_height) ->
  target_height <= new_height -> new_height - target_height < 2 ^ 49 ->
  exists plan : list saved,
    process_image (orig_width, orig_height) act_data output_base target_width target_height =
      Ok plan /\
    forall (s : saved) (resized : Z * Z) (x0 y x1 y1 : Z),
      In s plan -> saved_image s = Crop resized (x0, y, x1, y1) ->
      resized = (target_width, new_height) /\
      x0 = 0 /\ x1 = target_width /\ y1 = y + target_height /\
      0 <= y /\ y + target_height <= new_height.
Proof.
  intros Hact Hsize Htall Hbound.
  destruct (process_image_tall orig_width orig_height target_width target_height new_height
              act_data output_base Hact Hsize Htall Hbound)
    as (p1 & p2 & Hp1 & Hp2 & Hplan).
  eexists. split; [exact Hplan|].
  intros s resized x0 y x1 y1 Hin Hcrop.
  apply in_app_or in Hin. destruct Hin as [Hin|[<-|[]]]; [|discriminate Hcrop].
  apply (in_map saved_image) in Hin. rewrite crops_of_images, Hcrop in Hin.
  apply in_map_iff in Hin. destruct Hin as (y' & Heq & Hy').
  injection Heq as <- <- <- <- <-.
  rewrite sorted_set_In in Hy'. cbn [In] in Hy'.
  repeat split; try reflexivity; lia.
Qed.

(** A witness of C10: the crops of the source 1600 x 1200. *)
Lemma crops_within_resized_witness :
  exists plan : list saved,
    process_image (1600, 1200) blank_act "photo" 800 480 = Ok plan /\
    forall (s : saved) (resized : Z * Z) (x0 y x1 y1 : Z),
      In s plan -> saved_image s = Crop resized (x0, y, x1, y1) ->
      resized = (800, 600) /\
      x0 = 0 /\ x1 = 800 /\ y1 = y + 480 /\
      0 <= y /\ y + 480 <= 600.
Proof.
  apply (crops_within_resized 1600 1200 800 480 600 blank_act "photo").
  - unfold blank_act. rewrite repeat_length. apply Nat.le_refl.
  - vm_compute; reflexivity.
  - vm_compute; discriminate.
  - vm_compute; reflexivity.
Defined.

(* ===================================================================== *)
(** * Part III: further properties of the code                            *)
(* ===================================================================== *)

(** ** [apply_palette] *)

(** [apply_palette] raises (a [ValueError]) exactly for the empty palette,
    whatever the image; with any other palette it returns an image of the
    same shape and pixel count whose pixels are all entries of the
    palette. *)
Theorem apply_palette_result (img : image) (palette : list color) :
  (apply_palette img palette = Raise ValueError <-> palette = []) /\
  (palette <> [] ->
     exists q,
       apply_palette img palette = Ok q /\
       shape q = shape img /\ len (pixels q) = len (pixels img) /\
       Forall (fun c => In c palette) (pixels q)).
Proof.
  split; [split|].
  - intros H. destruct palette as [|c rest]; [reflexivity|].
    destruct (apply_palette_in_palette img (c :: rest)) as (q & Hq & _); [discriminate|].
    rewrite Hq in H. discriminate.
  - intros ->. reflexivity.
  - apply apply_palette_in_palette.
Qed.

(** The index chosen for a pixel is an index of the palette at which the
    distance the code computes (with its wrapped squares) is least, and the
    first such index. *)
Theorem nearest_index_first_least (palette : list color) (pixel : color) :
  palette <> [] ->
  let computed i :=
    distance (color_astype_int16 pixel) (color_astype_int16 (nth i palette black)) in
  exists k,
    nearest_index palette pixel = Ok k /\ (k < len palette)%nat /\
    (forall j, (j < len palette)%nat -> computed k <= computed j) /\
    (forall j, (j < k)%nat -> computed k < computed j).
Proof.
  intros Hne computed. unfold nearest_index.
  set (f := fun entry => distance (color_astype_int16 pixel) (color_astype_int16 entry)).
  destruct (argmin_first_least (map f palette)) as (k & Hk & Hlen & Hleast & Hfirst).
  { destruct palette; [congruence | discriminate]. }
  rewrite length_map in Hlen, Hleast.
  assert (Hn : forall i, (i < len palette)%nat -> nth i (map f palette) 0 = computed i).
  { intros i Hi. rewrite (nth_indep _ 0 (f black)) by (rewrite length_map; exact Hi).
    apply map_nth. }
  exists k. repeat split; try assumption.
  - intros j Hj. rewrite <- !Hn by assumption. now apply Hleast.
  - intros j Hj. rewrite <- !Hn by lia. now apply Hfirst.
Qed.

(** A witness: the tie of two equal entries goes to index 0. *)
Lemma nearest_index_first_least_witness :
  let computed i :=
    distance (color_astype_int16 white) (color_astype_int16 (nth i [black; black] black)) in
  exists k,
    nearest_index [black; black] white = Ok k /\ (k < len [black; black])%nat /\
    (forall j, (j < len [black; black])%nat -> computed k <= computed j) /\
    (forall j, (j < k)%nat -> computed k < computed j).
Proof. apply (nearest_index_first_least [black; black] white). discriminate. Defined.

Lemma sq_euclid_zero (p q : color) : sq_euclid p q = 0 -> p = q.
Proof.
  destruct p as [[p0 p1] p2], q as [[q0 q1] q2]. unfold sq_euclid. intros H.
  assert (H0 : byte.unsigned p0 - byte.unsigned q0 = 0) by nia.
  assert (H1 : byte.unsigned p1 - byte.unsigned q1 = 0) by nia.
  assert (H2 : byte.unsigned p2 - byte.unsigned q2 = 0) by nia.
  f_equal; [f_equal|]; apply byte.unsigned_inj; lia.
Qed.

Lemma distance_exact_within_181 (p q : color) :
  channels_within_181 p q ->
  distance (color_astype_int16 p) (color_astype_int16 q) = sq_euclid p q.
Proof.
  intros H. apply distance_exact_when_close.
  destruct p as [[p0 p1] p2], q as [[q0 q1] q2]. exact H.
Qed.

(** Where the palette is within 181 of the pixel on every channel, no
    square wraps around and the chosen entry is the nearest one in squared
    Euclidean distance, the first of them on ties. *)
Theorem nearest_index_exact_within_181 (palette : list color) (pixel : color) :
  palette <> [] ->
  Forall (channels_within_181 pixel) palette ->
  exists k,
    nearest_index palette pixel = Ok k /\ (k < len palette)%nat /\
    (forall j, (j < len palette)%nat ->
       sq_euclid pixel (nth k palette black) <= sq_euclid pixel (nth j palette black)) /\
    (forall j, (j < k)%nat ->
       sq_euclid pixel (nth k palette black) < sq_euclid pixel (nth j palette black)).
Proof.
  intros Hne Hclose.
  destruct (nearest_index_first_least palette pixel Hne) as (k & Hk & Hlen & Hleast & Hfirst).
  assert (Hd : forall i, (i < len palette)%nat ->
            distance (color_astype_int16 pixel) (color_astype_int16 (nth i palette black)) =
            sq_euclid pixel (nth i palette black)).
  { intros i Hi. apply distance_exact_within_181.
    rewrite Forall_forall in Hclose. apply Hclose. now apply nth_In. }
  exists k. repeat split; try assumption.
  - intros j Hj. rewrite <- !Hd by assumption. now apply Hleast.
  - intros j Hj. rewrite <- !Hd by lia. now apply Hfirst.
Qed.

(** A witness: a dark pixel on a palette of three dark greys. *)
Lemma nearest_index_exact_within_181_witness :
  let palette := [black; (x40, x40, x40); (x80, x80, x80)] in
  let pixel := (x50, x30, x40) in
  exists k,
    nearest_index palette pixel = Ok k /\ (k < len palette)%nat /\
    (forall j, (j < len palette)%nat ->
       sq_euclid pixel (nth k palette black) <= sq_euclid pixel (nth j palette black)) /\
    (forall j, (j < k)%nat ->
       sq_euclid pixel (nth k palette black) < sq_euclid pixel (nth j palette black)).
Proof.
  apply nearest_index_exact_within_181; [discriminate|].
  repeat constructor; vm_compute; discriminate.
Defined.

Lemma remap_pixel_fixed (palette : list color) (pixel : color) :
  In pixel palette -> Forall (channels_within_181 pixel) palette ->
  remap_pixel palette pixel = Ok pixel.
Proof.
  intros Hin Hclose.
  assert (Hne : palette <> []) by (intros ->; contradiction).
  destruct (nearest_index_exact_within_181 palette pixel Hne Hclose)
    as (k & Hk & Hlen & Hleast & _).
  unfold remap_pixel. rewrite Hk. cbn [bind]. f_equal.
  rewrite (nth_indep _ (0, 0, 0) (color_astype_int16 black))
    by (rewrite length_map; exact Hlen).
  rewrite map_nth, color_astype_roundtrip.
  destruct (In_nth palette pixel black Hin) as (i & Hi & Hnth).
  specialize (Hleast i Hi). rewrite Hnth in Hleast.
  symmetry. apply sq_euclid_zero.
  assert (sq_euclid pixel pixel = 0)
    by (destruct pixel as [[p0 p1] p2]; unfold sq_euclid; ring).
  assert (0 <= sq_euclid pixel (nth k palette black)).
  { destruct pixel as [[p0 p1] p2], (nth k palette black) as [[q0 q1] q2].
    unfold sq_euclid. nia. }
  lia.
Qed.

(** Where the palette is within 181 of the pixel on every channel, the
    pixel is replaced by an entry of the palette that is nearest to it in
    squared Euclidean distance: in that range the wrap-around of [int16]
    does not show. *)
Theorem remap_pixel_nearest_within_181 (palette : list color) (pixel : color) :
  palette <> [] ->
  Forall (channels_within_181 pixel) palette ->
  exists c,
    remap_pixel palette pixel = Ok c /\ In c palette /\
    Forall (fun q => sq_euclid pixel c <= sq_euclid pixel q) palette.
Proof.
  intros Hne Hclose.
  destruct (nearest_index_exact_within_181 palette pixel Hne Hclose)
    as (k & Hk & Hlen & Hleast & _).
  exists (nth k palette black). split; [|split].
  - unfold remap_pixel. rewrite Hk. cbn [bind]. f_equal.
    rewrite (nth_indep _ (0, 0, 0) (color_astype_int16 black))
      by (rewrite length_map; exact Hlen).
    rewrite map_nth. apply color_astype_roundtrip.
  - now apply nth_In.
  - apply Forall_forall. intros q Hq.
    destruct (In_nth palette q black Hq) as (i & Hi & <-). now apply Hleast.
Qed.

(** A witness: a dark pixel on a palette of three dark greys. *)
Lemma remap_pixel_nearest_within_181_witness :
  let palette := [black; (x40, x40, x40); (x80, x80, x80)] in
  let pixel := (x50, x30, x40) in
  exists c,
    remap_pixel palette pixel = Ok c /\ In c palette /\
    Forall (fun q => sq_euclid pixel c <= sq_euclid pixel q) palette.
Proof.
  apply remap_pixel_nearest_within_181; [discriminate|].
  repeat constructor; vm_compute; discriminate.
Defined.

(** On a palette whose entries are pairwise within 181 on every channel,
    the remapping is idempotent: an image made of palette colours comes
    back unchanged. *)
Theorem apply_palette_idempotent_within_181 (img : image) (palette : list color) :
  palette <> [] ->
  Forall (fun p => Forall (channels_within_181 p) palette) palette ->
  Forall (fun c => In c palette) (pixels img) ->
  apply_palette img palette = Ok img.
Proof.
  intros Hne Hclose Hin. unfold apply_palette.
  rewrite Forall_forall in Hclose.
  assert (Hmap : map_result (remap_pixel palette) (pixels img) = Ok (pixels img)).
  { induction Hin as [|c rest Hc Hrest IH]; [reflexivity|].
    cbn [map_result]. rewrite remap_pixel_fixed.
    - cbn [bind]. rewrite IH. reflexivity.
    - exact Hc.
    - now apply Hclose. }
  destruct palette as [|c0 rest]; [congruence|].
  rewrite Hmap. cbn [bind]. now destruct img.
Qed.

(** A witness: an image of two greys on a palette of three dark greys. *)
Lemma apply_palette_idempotent_within_181_witness :
  let palette := [black; (x40, x40, x40); (x80, x80, x80)] in
  let img := {| shape := (1%nat, 2%nat); pixels := [(x80, x80, x80); black] |} in
  apply_palette img palette = Ok img.
Proof.
  apply apply_palette_idempotent_within_181.
  - discriminate.
  - repeat constructor; vm_compute; discriminate.
  - constructor; [right; right; left; reflexivity|].
    constructor; [left; reflexivity | constructor].
Defined.

(** ** The palette loaders *)

Lemma ravel_reshape {A : Type} (n : nat) : forall data : list A,
  len data = (3 * n)%nat -> ravel (reshape n data) = data.
Proof.
  induction n as [|n IH]; intros data Hlen.
  - destruct data; [reflexivity | discriminate].
  - destruct data as [|a [|b [|c rest]]]; cbn [List.length] in Hlen; try lia.
    cbn [reshape ravel]. rewrite IH by lia. reflexivity.
Qed.

(** No byte is lost or reordered by [load_palette]: the rows of the
    palette it returns, laid end to end, are the bytes of the file (the
    first 768 of them for a file of 772 bytes). *)
Theorem load_palette_ravel (data : list byte) (palette : list color) :
  load_palette data = Ok palette ->
  ravel palette = if (len data =? 772)%nat then firstn 768 data else data.
Proof.
  intros Hload.
  destruct (Nat.eqb_spec (len data) 772) as [E|E].
  - rewrite load_palette_772 in Hload by exact E.
    assert (Hp : palette = reshape 256 data) by congruence. subst palette.
    rewrite <- (reshape_firstn 256). apply ravel_reshape.
    rewrite length_firstn. lia.
  - destruct (Nat.eq_dec (len data mod 3) 0) as [M|M].
    + rewrite load_palette_multiple in Hload by assumption.
      assert (Hp : palette = reshape (len data / 3) data) by congruence. subst palette.
      apply ravel_reshape.
      pose proof (Nat.div_mod_eq (len data) 3). lia.
    + rewrite load_palette_raises in Hload by assumption. discriminate.
Qed.

(** A witness: a palette file of two colours. *)
Lemma load_palette_ravel_witness :
  ravel [black; white] =
    if (len [x00; x00; x00; xff; xff; xff] =? 772)%nat
    then firstn 768 [x00; x00; x00; xff; xff; xff]
    else [x00; x00; x00; xff; xff; xff].
Proof. apply load_palette_ravel. reflexivity. Defined.

(** The two loaders agree on the standard palette files: for 768 or 772
    bytes, the colours PIL reads from the list of [load_act_palette] are
    the rows of [load_palette]. *)
Theorem loaders_agree (data : list byte) :
  len data = 768%nat \/ len data = 772%nat ->
  exists flat,
    load_act_palette data = Ok flat /\
    load_palette data = Ok (putpalette flat) /\
    len (putpalette flat) = 256%nat.
Proof.
  intros Hlen. exists (firstn 768 data).
  assert (Hl : len (firstn 768 data) = 768%nat) by (rewrite length_firstn; lia).
  split; [apply load_act_palette_ok; lia|].
  unfold putpalette. rewrite Hl. change (768 / 3)%nat with 256%nat.
  split; [|apply reshape_length; lia].
  rewrite (reshape_firstn 256).
  destruct Hlen as [H|H].
  - rewrite load_palette_multiple by (rewrite H; first [discriminate | reflexivity]).
    now rewrite H.
  - now apply load_palette_772.
Qed.

(** A witness: the palette file of 768 zero bytes. *)
Lemma loaders_agree_witness :
  exists flat,
    load_act_palette blank_act = Ok flat /\
    load_palette blank_act = Ok (putpalette flat) /\
    len (putpalette flat) = 256%nat.
Proof.
  apply loaders_agree. left. unfold blank_act. apply repeat_length.
Defined.

(** ** [overlay_edges] and the stained-glass pipeline *)

(** With an edge map that holds no edge, [overlay_edges] returns the image
    unchanged. *)
Theorem overlay_edges_no_edge (img : image) (edges : mask) :
  shape img = mask_shape edges ->
  len (pixels img) = len (mask_values edges) ->
  Forall (fun e => byte.unsigned e = 0) (mask_values edges) ->
  overlay_edges img edges = Ok img.
Proof.
  intros Hs Hl Hzero. rewrite (overlay_edges_ok img edges Hs Hl).
  destruct img as [sh px]. cbn [shape pixels] in *. f_equal. f_equal.
  revert px Hl. induction Hzero as [|e rest He Hrest IH]; intros px Hl.
  - destruct px; [reflexivity | discriminate].
  - destruct px as [|p px]; [discriminate|].
    cbn [combine map fst snd]. rewrite He. cbn. f_equal. apply IH.
    cbn in Hl. lia.
Qed.

(** A witness: two pixels and an edge map of two zeros. *)
Lemma overlay_edges_no_edge_witness :
  overlay_edges {| shape := (1%nat, 2%nat); pixels := [white; black] |}
                {| mask_shape := (1%nat, 2%nat); mask_values := [x00; x00] |} =
    Ok {| shape := (1%nat, 2%nat); pixels := [white; black] |}.
Proof.
  apply overlay_edges_no_edge; [reflexivity | reflexivity | repeat constructor].
Defined.

(** Overlaying the same edge map a second time changes nothing. *)
Theorem overlay_edges_idempotent (img result_img : image) (edges : mask) :
  overlay_edges img edges = Ok result_img ->
  overlay_edges result_img edges = Ok result_img.
Proof.
  unfold overlay_edges at 1.
  destruct (shape_eqb (shape img) (mask_shape edges)
            && (len (pixels img) =? len (mask_values edges))%nat) eqn:Hcheck;
    [|discriminate].
  apply andb_prop in Hcheck. destruct Hcheck as [Hs Hl].
  apply Nat.eqb_eq in Hl.
  unfold shape_eqb in Hs. apply andb_prop in Hs. destruct Hs as [Hs1 Hs2].
  apply Nat.eqb_eq in Hs1, Hs2.
  intros H. injection H as <-.
  set (f := fun pe : color * byte => if byte.unsigned (snd pe) =? 0 then fst pe else black).
  assert (Hlen : len (map f (combine (pixels img) (mask_values edges))) =
                 len (mask_values edges))
    by (rewrite length_map, length_combine; lia).
  rewrite overlay_edges_ok; cbn [shape pixels].
  - f_equal. f_equal. fold f.
    generalize (pixels img) as px. generalize (mask_values edges) as es.
    induction es as [|e es IH]; intros [|p px]; try reflexivity.
    cbn [combine map]. f_equal; [|apply IH].
    unfold f; cbn [fst snd]. now destruct (byte.unsigned e =? 0).
  - destruct (shape img), (mask_shape edges). cbn in *. congruence.
  - exact Hlen.
Qed.

(** A witness: an edge on the first of two pixels. *)
Lemma overlay_edges_idempotent_witness :
  overlay_edges {| shape := (1%nat, 2%nat); pixels := [black; white] |}
                {| mask_shape := (1%nat, 2%nat); mask_values := [xff; x00] |} =
    Ok {| shape := (1%nat, 2%nat); pixels := [black; white] |}.
Proof.
  apply (overlay_edges_idempotent
           {| shape := (1%nat, 2%nat); pixels := [white; white] |}).
  reflexivity.
Defined.

Lemma firstn_reshape {A : Type} (k : nat) : forall (n : nat) (data : list A),
  (k <= n)%nat -> firstn k (reshape n data) = reshape k data.
Proof.
  induction k as [|k IH]; intros n data Hk; [reflexivity|].
  destruct n as [|n]; [lia|].
  destruct data as [|a [|b [|c rest]]]; try reflexivity.
  cbn [reshape firstn]. rewrite IH by lia. reflexivity.
Qed.

(** What [load_palette] returns is [reshape n data'] for the bytes
    [data'] it keeps, with [n] rows. *)
Lemma load_palette_shape (data : list byte) (palette : list color) :
  load_palette data = Ok palette ->
  exists data' : list byte,
    palette = reshape (len data' / 3) data' /\
    len data' = (3 * (len data' / 3))%nat /\
    len palette = (len data' / 3)%nat /\
    firstn 24 data' = firstn 24 data.
Proof.
  intros Hload.
  destruct (Nat.eqb_spec (len data) 772) as [E|E].
  - rewrite load_palette_772 in Hload by exact E.
    exists (firstn 768 data).
    assert (Hl : len (firstn 768 data) = 768%nat) by (rewrite length_firstn; lia).
    rewrite Hl. change (768 / 3)%nat with 256%nat.
    split; [rewrite (reshape_firstn 256); congruence|].
    split; [reflexivity|].
    split; [|rewrite firstn_firstn; reflexivity].
    assert (Hp : palette = reshape 256 data) by congruence. subst palette.
    apply reshape_length. lia.
  - destruct (Nat.eq_dec (len data mod 3) 0) as [M|M].
    + rewrite load_palette_multiple in Hload by assumption.
      exists data.
      assert (Hdiv : len data = (3 * (len data / 3))%nat)
        by (pose proof (Nat.div_mod_eq (len data) 3); lia).
      split; [congruence|]. split; [exact Hdiv|]. split; [|reflexivity].
      assert (Hp : palette = reshape (len data / 3) data) by congruence. subst palette.
      apply reshape_length. lia.
    + rewrite load_palette_raises in Hload by assumption. discriminate.
Qed.

(** [stained_glass_effect] reads no more than the first eight colours of
    the palette file: when the file parses to at least eight colours, the
    run is the same as with the first 24 bytes of the file alone. *)
Theorem stained_glass_reads_24_bytes
    (detect_edges : image -> mask) (img : option image) (act_data : list byte)
    (palette : list color) :
  load_palette act_data = Ok palette -> (8 <= len palette)%nat ->
  stained_glass_effect detect_edges img act_data =
  stained_glass_effect detect_edges img (firstn 24 act_data).
Proof.
  intros Hload H8. destruct img as [img|]; [|reflexivity].
  destruct (load_palette_shape act_data palette Hload)
    as (data' & Hpal & Hdiv & Hlen & Hfirst).
  assert (H24 : (24 <= len act_data)%nat).
  { assert (len (firstn 24 data') = 24%nat) by (rewrite length_firstn; lia).
    rewrite Hfirst, length_firstn in H. lia. }
  assert (Hl24 : len (firstn 24 act_data) = 24%nat) by (rewrite length_firstn; lia).
  assert (Hload24 : load_palette (firstn 24 act_data) = Ok (reshape 8 (firstn 24 act_data))).
  { rewrite load_palette_multiple by (rewrite Hl24; first [discriminate | reflexivity]).
    now rewrite Hl24. }
  assert (Hfirst8 : firstn 8 palette = reshape 8 (firstn 24 act_data)).
  { rewrite Hpal.
    etransitivity; [apply firstn_reshape; lia|].
    rewrite <- (reshape_firstn 8 data'), <- (reshape_firstn 8 (firstn 24 act_data)).
    change (3 * 8)%nat with 24%nat. now rewrite firstn_firstn, Hfirst. }
  assert (Hlen8 : @List.length color (reshape 8 (firstn 24 act_data)) = 8%nat)
    by (apply reshape_length; lia).
  unfold stained_glass_effect. rewrite Hload, Hload24. cbn [bind].
  rewrite Hlen8. change (8 <? 8)%nat with false.
  destruct (Nat.ltb_spec (len palette) 8) as [H|_]; [lia|].
  replace (if (8 <? len palette)%nat then firstn 8 palette else palette)
    with (firstn 8 palette).
  - rewrite Hfirst8. reflexivity.
  - destruct (Nat.ltb_spec 8 (len palette)); [reflexivity|].
    apply firstn_all2. lia.
Qed.

(** A witness: a palette file of nine colours. *)
Lemma stained_glass_reads_24_bytes_witness :
  let detect_edges := fun q : image =>
    {| mask_shape := shape q; mask_values := map (fun _ => x00) (pixels q) |} in
  let img := Some {| shape := (1%nat, 1%nat); pixels := [white] |} in
  stained_glass_effect detect_edges img (repeat x00 24 ++ repeat xff 3) =
  stained_glass_effect detect_edges img (firstn 24 (repeat x00 24 ++ repeat xff 3)).
Proof.
  cbv zeta.
  apply (stained_glass_reads_24_bytes _ _ _ (repeat black 8 ++ [white]));
    [reflexivity | cbn; lia].
Defined.

Lemma overlay_edges_pixels (P : color -> Prop) (img : image) (edges : mask) :
  shape img = mask_shape edges ->
  len (pixels img) = len (mask_values edges) ->
  P black -> Forall P (pixels img) ->
  exists result_img,
    overlay_edges img edges = Ok result_img /\
    shape result_img = shape img /\
    len (pixels result_img) = len (pixels img) /\
    Forall P (pixels result_img).
Proof.
  intros Hs Hl Pb HP. rewrite (overlay_edges_ok img edges Hs Hl).
  eexists. split; [reflexivity|]. cbn [shape pixels].
  split; [reflexivity|].
  split; [rewrite length_map, length_combine; lia|].
  apply Forall_forall. intros c Hc.
  apply in_map_iff in Hc. destruct Hc as ([p e] & <- & Hin).
  apply in_combine_l in Hin. cbn [fst snd].
  destruct (byte.unsigned e =? 0); [|exact Pb].
  rewrite Forall_forall in HP. now apply HP.
Qed.

(** With an edge detector that returns an edge map of the shape of its
    input (as Canny does), a readable image and a palette file of at least
    eight colours always end in a written image: of the shape of the
    input, with every pixel one of the first eight palette colours or
    black. *)
Theorem stained_glass_writes
    (detect_edges : image -> mask) (img : image) (act_data : list byte)
    (palette : list color) :
  (forall q, mask_shape (detect_edges q) = shape q /\
             len (mask_values (detect_edges q)) = len (pixels q)) ->
  load_palette act_data = Ok palette -> (8 <= len palette)%nat ->
  exists result_img,
    stained_glass_effect detect_edges (Some img) act_data = Ok (Written result_img) /\
    shape result_img = shape img /\
    len (pixels result_img) = len (pixels img) /\
    Forall (fun c => In c (firstn 8 palette) \/ c = black) (pixels result_img).
Proof.
  intros Hdetect Hload H8. unfold stained_glass_effect. rewrite Hload. cbn [bind].
  destruct (Nat.ltb_spec (len palette) 8) as [H|_]; [lia|].
  replace (if (8 <? len palette)%nat then firstn 8 palette else palette)
    with (firstn 8 palette)
    by (destruct (Nat.ltb_spec 8 (len palette));
        [reflexivity | apply firstn_all2; lia]).
  destruct (apply_palette_in_palette img (firstn 8 palette)) as (q & Hq & Hsq & Hlq & Hin).
  { destruct palette; [cbn in H8; lia | discriminate]. }
  rewrite Hq. cbn [bind].
  destruct (Hdetect q) as [Hs Hl].
  destruct (overlay_edges_pixels (fun c => In c (firstn 8 palette) \/ c = black)
              q (detect_edges q)) as (r & Hr & Hsr & Hlr & HP).
  - now rewrite Hs.
  - now rewrite Hl.
  - now right.
  - eapply Forall_impl; [|exact Hin]. intros c Hc; now left.
  - exists r. rewrite Hr. cbn [bind].
    split; [reflexivity|]. split; [congruence|]. split; [congruence | exact HP].
Qed.

(** A witness: an edge detector that marks every pixel. *)
Lemma stained_glass_writes_witness :
  let detect_edges := fun q : image =>
    {| mask_shape := shape q; mask_values := map (fun _ => xff) (pixels q) |} in
  let img := {| shape := (1%nat, 1%nat); pixels := [white] |} in
  exists result_img,
    stained_glass_effect detect_edges (Some img) (repeat x00 24 ++ repeat xff 3) =
      Ok (Written result_img) /\
    shape result_img = shape img /\
    len (pixels result_img) = len (pixels img) /\
    Forall (fun c => In c (firstn 8 (repeat black 8 ++ [white])) \/ c = black)
           (pixels result_img).
Proof.
  cbv zeta.
  apply (stained_glass_writes _ _ (repeat x00 24 ++ repeat xff 3) (repeat black 8 ++ [white])).
  - intros q. cbn [mask_shape mask_values]. split; [reflexivity | apply length_map].
  - reflexivity.
  - cbn; lia.
Defined.

(** ** The plan of [process_image] *)

Lemma append_inj_l (base s t : string) : (base ++ s = base ++ t)%string -> s = t.
Proof.
  induction base as [|c base IH]; cbn; intros H; [exact H|].
  injection H as H. now apply IH.
Qed.

Lemma NoDup_map_append (base : string) (l : list string) :
  NoDup l -> NoDup (map (String.append base) l).
Proof.
  induction 1 as [|s l Hnotin Hnodup IH]; cbn [map]; constructor; [|exact IH].
  intros Hin. apply in_map_iff in Hin. destruct Hin as (t & Heq & Ht).
  apply append_inj_l in Heq. now subst t.
Qed.

(** Any result of [crop_positions] is [sorted(set(...))] of four values:
    between one and four positions. *)
Lemma crop_positions_length (y_max : Z) (positions : list Z) :
  crop_positions y_max = Ok positions -> (1 <= len positions <= 4)%nat.
Proof.
  unfold crop_positions.
  destruct (Float.truediv y_max 3) as [x1|]; [|discriminate]. cbn [bind].
  destruct (Float.round x1) as [p1|]; [|discriminate]. cbn [bind].
  destruct (Float.truediv (2 * y_max) 3) as [x2|]; [|discriminate]. cbn [bind].
  destruct (Float.round x2) as [p2|]; [|discriminate]. cbn [bind].
  intros H. assert (Hp : positions = sorted_set [0; p1; p2; y_max]) by congruence.
  subst positions. apply sorted_set_length4.
Qed.

(** The files written by one call of [process_image] have pairwise
    distinct names: no output overwrites another. *)
Theorem process_image_names_distinct
    (orig_size : Z * Z) (act_data : list byte) (output_base : string)
    (target_width target_height : Z) (plan : list saved) :
  process_image orig_size act_data output_base target_width target_height = Ok plan ->
  NoDup (map out_name plan).
Proof.
  unfold process_image.
  destruct (proportional_size orig_size target_width) as [[new_width new_height]|];
    [|discriminate]. cbn [bind].
  destruct (load_act_palette act_data) as [palette|]; [|discriminate]. cbn [bind].
  destruct (target_height <=? new_height).
  - destruct (crop_positions (new_height - target_height)) as [positions|] eqn:Hpos;
      [|discriminate]. cbn [bind].
    intros H.
    assert (Hplan : plan =
      crops_of (new_width, new_height) (putpalette palette) output_base
               target_width target_height positions ++
      [ {| saved_image :=
             ForcedFromResized (new_width, new_height) (target_width, target_height);
           out_name := (output_base ++ "_resized.bmp")%string;
           pal_img := putpalette palette |} ]) by congruence.
    subst plan. rewrite map_app, crops_of_names. cbn [map out_name].
    pose proof (crop_positions_length _ _ Hpos) as Hk.
    destruct (len positions) as [|[|[|[|[|k]]]]]; try lia;
      cbn [seq map crop_out_name Nat.eqb Nat.ltb Nat.leb List.length suffixes nth app].
    + apply (NoDup_map_append output_base [".bmp"; "_resized.bmp"]%string).
      repeat constructor; cbn; intuition discriminate.
    + apply (NoDup_map_append output_base
               ["_top.bmp"; "_upper.bmp"; "_resized.bmp"]%string).
      repeat constructor; cbn; intuition discriminate.
    + apply (NoDup_map_append output_base
               ["_top.bmp"; "_upper.bmp"; "_lower.bmp"; "_resized.bmp"]%string).
      repeat constructor; cbn; intuition discriminate.
    + apply (NoDup_map_append output_base
               ["_top.bmp"; "_upper.bmp"; "_lower.bmp"; "_bottom.bmp";
                "_resized.bmp"]%string).
      repeat constructor; cbn; intuition discriminate.
  - intros H.
    assert (Hplan : map out_name plan = [(output_base ++ ".bmp")%string])
      by (injection H as <-; reflexivity).
    rewrite Hplan. repeat constructor. intros [].
Qed.

(** A witness: the five files of the source 1600 x 1200. *)
Lemma process_image_names_distinct_witness :
  NoDup [ "photo_top.bmp"; "photo_upper.bmp"; "photo_lower.bmp"; "photo_bottom.bmp";
          "photo_resized.bmp" ]%string.
Proof.
  apply (process_image_names_distinct (1600, 1200) blank_act "photo" 800 480
           [ {| saved_image := Crop (800, 600) (0, 0, 800, 480);
                out_name := "photo_top.bmp"; pal_img := putpalette (firstn 768 blank_act) |};
             {| saved_image := Crop (800, 600) (0, 40, 800, 520);
                out_name := "photo_upper.bmp"; pal_img := putpalette (firstn 768 blank_act) |};
             {| saved_image := Crop (800, 600) (0, 80, 800, 560);
                out_name := "photo_lower.bmp"; pal_img := putpalette (firstn 768 blank_act) |};
             {| saved_image := Crop (800, 600) (0, 120, 800, 600);
                out_name := "photo_bottom.bmp"; pal_img := putpalette (firstn 768 blank_act) |};
             {| saved_image := ForcedFromResized (800, 600) (800, 480);
                out_name := "photo_resized.bmp";
                pal_img := putpalette (firstn 768 blank_act) |} ]).
  vm_compute. reflexivity.
Defined.

Lemma sorted_set_increasing (a b c : Z) :
  0 < a -> a < b -> b < c -> sorted_set [0; a; b; c] = [0; a; b; c].
Proof.
  intros Ha Hb Hc. cbn [sorted_set fold_right insert_uniq].
  rewrite (proj2 (Z.compare_lt_iff b c) Hc). cbn [insert_uniq].
  rewrite (proj2 (Z.compare_lt_iff a b) Hb). cbn [insert_uniq].
  now rewrite (proj2 (Z.compare_lt_iff 0 a) Ha).
Qed.

(** The number of crops of the tall branch is [min(y_max + 1, 4)]: one
    crop for [y_max = 0], two for 1, three for 2, and four as soon as
    [y_max >= 3]. *)
Theorem crop_count
    (orig_width orig_height target_width target_height new_height : Z)
    (act_data : list byte) (output_base : string) :
  (768 <= len act_data)%nat ->
  proportional_size (orig_width, orig_height) target_width = Ok (target_width, new_height) ->
  target_height <= new_height -> new_height - target_height < 2 ^ 49 ->
  exists (crops : list saved) (forced : saved),
    process_image (orig_width, orig_height) act_data output_base target_width target_height =
      Ok (crops ++ [forced]) /\
    Forall (fun s => crop_offset (saved_image s) <> None) crops /\
    crop_offset (saved_image forced) = None /\
    Z.of_nat (len crops) = Z.min (new_height - target_height + 1) 4.
Proof.
  intros Hact Hsize Htall Hbound.
  destruct (process_image_tall orig_width orig_height target_width target_height new_height
              act_data output_base Hact Hsize Htall Hbound)
    as (p1 & p2 & Hp1 & Hp2 & Hplan).
  set (y := new_height - target_height) in *.
  eexists. eexists. split; [exact Hplan|].
  split.
  { apply Forall_forall. intros s Hs.
    apply (in_map saved_image) in Hs. rewrite crops_of_images in Hs.
    apply in_map_iff in Hs. destruct Hs as (o & <- & _). discriminate. }
  split; [reflexivity|].
  assert (Hlen : len (crops_of (target_width, new_height) (putpalette (firstn 768 act_data))
                        output_base target_width target_height (sorted_set [0; p1; p2; y])) =
                 len (sorted_set [0; p1; p2; y])).
  { rewrite <- (length_map saved_image), crops_of_images. apply length_map. }
  rewrite Hlen.
  destruct (Z.le_gt_cases 3 y) as [H3|H3].
  - rewrite sorted_set_increasing by lia. cbn [List.length]. lia.
  - assert (Hy : y = 0 \/ y = 1 \/ y = 2) by lia.
    destruct Hy as [Hy|[Hy|Hy]]; rewrite Hy in *.
    + assert (p1 = 0) by lia. assert (p2 = 0) by lia. subst p1 p2. reflexivity.
    + assert (p1 = 0) by lia. assert (p2 = 1) by lia. subst p1 p2. reflexivity.
    + assert (p1 = 1) by lia. assert (p2 = 1) by lia. subst p1 p2. reflexivity.
Qed.

(** A witness: a source of 800 x 482 gives [y_max = 2] and three crops. *)
Lemma crop_count_witness :
  exists (crops : list saved) (forced : saved),
    process_image (800, 482) blank_act "photo" 800 480 = Ok (crops ++ [forced]) /\
    Forall (fun s => crop_offset (saved_image s) <> None) crops /\
    crop_offset (saved_image forced) = None /\
    Z.of_nat (len crops) = Z.min (482 - 480 + 1) 4.
Proof.
  apply (crop_count 800 482 800 480 482 blank_act "photo").
  - unfold blank_act. rewrite repeat_length. apply Nat.le_refl.
  - vm_compute; reflexivity.
  - vm_compute; discriminate.
  - vm_compute; reflexivity.
Defined.

Lemma sorted_hd_least (l : list Z) (a : Z) :
  StronglySorted Z.lt l -> In a l -> (forall z, In z l -> a <= z) ->
  hd_error l = Some a.
Proof.
  intros Hs Hin Hleast. destruct l as [|x rest]; [contradiction|].
  cbn [hd_error]. f_equal.
  destruct Hin as [->|Hin]; [reflexivity|].
  apply StronglySorted_inv in Hs. destruct Hs as [_ Hall].
  rewrite Forall_forall in Hall. specialize (Hall a Hin).
  specialize (Hleast x (or_introl eq_refl)). lia.
Qed.

Lemma sorted_last_greatest (l : list Z) (b : Z) :
  StronglySorted Z.lt l -> In b l -> (forall z, In z l -> z <= b) ->
  last l 0 = b.
Proof.
  induction l as [|x rest IH]; intros Hs Hin Hgreatest; [contradiction|].
  apply StronglySorted_inv in Hs. destruct Hs as [Hs Hall].
  destruct rest as [|x' rest'].
  - destruct Hin as [->|[]]. reflexivity.
  - change (last (x :: x' :: rest') 0) with (last (x' :: rest') 0).
    apply IH; [exact Hs | | intros z Hz; apply Hgreatest; now right].
    destruct Hin as [->|Hin]; [|exact Hin].
    rewrite Forall_forall in Hall.
    specialize (Hall x' (or_introl eq_refl)).
    specialize (Hgreatest x' (or_intror (or_introl eq_refl))). lia.
Qed.

Lemma last_map_nonempty {A B : Type} (f : A -> B) (l : list A) (d : A) (d' : B) :
  l <> [] -> last (map f l) d' = f (last l d).
Proof.
  induction l as [|x rest IH]; intros Hne; [congruence|].
  destruct rest as [|x' rest']; [reflexivity|].
  change (last (map f (x :: x' :: rest')) d') with (last (map f (x' :: rest')) d').
  change (last (x :: x' :: rest') d) with (last (x' :: rest') d).
  apply IH. discriminate.
Qed.

(** The crops of the tall branch always include the top and the bottom of
    the resized image: the first crop is at offset 0 and the last one ends
    on the last row. *)
Theorem crops_top_and_bottom
    (orig_width orig_height target_width target_height new_height : Z)
    (act_data : list byte) (output_base : string) :
  (768 <= len act_data)%nat ->
  proportional_size (orig_width, orig_height) target_width = Ok (target_width, new_height) ->
  target_height <= new_height -> new_height - target_height < 2 ^ 49 ->
  exists (crops : list saved) (forced : saved),
    process_image (orig_width, orig_height) act_data output_base target_width target_height =
      Ok (crops ++ [forced]) /\
    hd_error (map saved_image crops) =
      Some (Crop (target_width, new_height) (0, 0, target_width, target_height)) /\
    last (map saved_image crops) (ForcedFromOriginal (0, 0)) =
      Crop (target_width, new_height)
           (0, new_height - target_height, target_width, new_height).
Proof.
  intros Hact Hsize Htall Hbound.
  destruct (process_image_tall orig_width orig_height target_width target_height new_height
              act_data output_base Hact Hsize Htall Hbound)
    as (p1 & p2 & Hp1 & Hp2 & Hplan).
  set (y := new_height - target_height) in *.
  eexists. eexists. split; [exact Hplan|].
  rewrite crops_of_images.
  pose proof (sorted_set_sorted [0; p1; p2; y]) as Hsorted.
  assert (Hrange : forall z, In z (sorted_set [0; p1; p2; y]) -> 0 <= z <= y).
  { intros z Hz. rewrite sorted_set_In in Hz. cbn [In] in Hz. lia. }
  assert (Hhd : hd_error (sorted_set [0; p1; p2; y]) = Some 0).
  { apply sorted_hd_least; [exact Hsorted | | intros z Hz; now apply Hrange].
    rewrite sorted_set_In. now left. }
  assert (Hlast : last (sorted_set [0; p1; p2; y]) 0 = y).
  { apply sorted_last_greatest; [exact Hsorted | | intros z Hz; now apply Hrange].
    rewrite sorted_set_In. cbn. auto. }
  split.
  - destruct (sorted_set [0; p1; p2; y]) as [|o rest]; [discriminate Hhd|].
    cbn [map hd_error]. injection Hhd as ->. do 3 f_equal.
  - rewrite (last_map_nonempty _ _ 0) by (intros E; rewrite E in Hhd; discriminate).
    rewrite Hlast. do 3 f_equal. subst y. lia.
Qed.

(** A witness: the source 1600 x 1200. *)
Lemma crops_top_and_bottom_witness :
  exists (crops : list saved) (forced : saved),
    process_image (1600, 1200) blank_act "photo" 800 480 = Ok (crops ++ [forced]) /\
    hd_error (map saved_image crops) = Some (Crop (800, 600) (0, 0, 800, 480)) /\
    last (map saved_image crops) (ForcedFromOriginal (0, 0)) =
      Crop (800, 600) (0, 600 - 480, 800, 600).
Proof.
  apply (crops_top_and_bottom 1600 1200 800 480 600 blank_act "photo").
  - unfold blank_act. rewrite repeat_length. apply Nat.le_refl.
  - vm_compute; reflexivity.
  - vm_compute; discriminate.
  - vm_compute; reflexivity.
Defined.

(** When the resized image is not too tall ([y_max + 2 <= 3 * target_height],
    that is up to about four target heights), the crops cover it: every
    row of the resized image lies in at least one crop window. *)
Theorem crops_cover_resized
    (orig_width orig_height target_width target_height new_height : Z)
    (act_data : list byte) (output_base : string) :
  (768 <= len act_data)%nat ->
  proportional_size (orig_width, orig_height) target_width = Ok (target_width, new_height) ->
  target_height <= new_height -> new_height - target_height < 2 ^ 49 ->
  new_height - target_height + 2 <= 3 * target_height ->
  exists plan : list saved,
    process_image (orig_width, orig_height) act_data output_base target_width target_height =
      Ok plan /\
    forall row : Z, 0 <= row < new_height ->
      exists (s : saved) (y : Z),
        In s plan /\
        saved_image s =
          Crop (target_width, new_height) (0, y, target_width, y + target_height) /\
        y <= row < y + target_height.
Proof.
  intros Hact Hsize Htall Hbound Hgap.
  destruct (process_image_tall orig_width orig_height target_width target_height new_height
              act_data output_base Hact Hsize Htall Hbound)
    as (p1 & p2 & Hp1 & Hp2 & Hplan).
  set (y_max := new_height - target_height) in *.
  eexists. split; [exact Hplan|].
  intros row Hrow.
  assert (Hpick : exists y, In y [0; p1; p2; y_max] /\ y <= row < y + target_height).
  { destruct (Z.le_gt_cases y_max row); [exists y_max; cbn; split; [auto | subst y_max; lia]|].
    destruct (Z.le_gt_cases p2 row); [exists p2; cbn; split; [auto | lia]|].
    destruct (Z.le_gt_cases p1 row); [exists p1; cbn; split; [auto | lia]|].
    exists 0; cbn; split; [auto | lia]. }
  destruct Hpick as (y & Hy & Hin).
  rewrite <- sorted_set_In in Hy.
  apply (in_map (fun y => Crop (target_width, new_height)
                               (0, y, target_width, y + target_height))) in Hy.
  rewrite <- (crops_of_images (target_width, new_height)
                (putpalette (firstn 768 act_data)) output_base) in Hy.
  apply in_map_iff in Hy. destruct Hy as (s & Hs & Hscrops).
  exists s, y. split; [apply in_or_app; now left|]. split; [exact Hs | exact Hin].
Qed.

(** A witness: the four crops of the source 1600 x 1200 cover its 600
    rows. *)
Lemma crops_cover_resized_witness :
  exists plan : list saved,
    process_image (1600, 1200) blank_act "photo" 800 480 = Ok plan /\
    forall row : Z, 0 <= row < 600 ->
      exists (s : saved) (y : Z),
        In s plan /\
        saved_image s = Crop (800, 600) (0, y, 800, y + 480) /\
        y <= row < y + 480.
Proof.
  apply (crops_cover_resized 1600 1200 800 480 600 blank_act "photo").
  - unfold blank_act. rewrite repeat_length. apply Nat.le_refl.
  - vm_compute; reflexivity.
  - vm_compute; discriminate.
  - vm_compute; reflexivity.
  - vm_compute; discriminate.
Defined.


(** With a palette file of fewer than 768 bytes, [process_image] raises
    [ValueError] for every size in the range of the float computations,
    before anything is saved; a source of width 0 is a
    [ZeroDivisionError], whatever the palette file. *)
Theorem process_image_errors
    (orig_width orig_height target_width target_height : Z)
    (act_data : list byte) (output_base : string) :
  (0 < orig_width < 2 ^ 53 -> 0 < orig_height -> 0 < target_width ->
   orig_height * target_width <= 2 ^ 50 ->
   (len act_data < 768)%nat ->
   process_image (orig_width, orig_height) act_data output_base target_width target_height =
     Raise ValueError) /\
  process_image (0, orig_height) act_data output_base target_width target_height =
    Raise ZeroDivisionError.
Proof.
  split.
  - intros How Hoh Htw Hprod Hact.
    destruct (proportional_size_bounds orig_width orig_height target_width)
      as (nh & Hsize & _); try assumption.
    unfold process_image. rewrite Hsize. cbn [bind].
    now rewrite load_act_palette_raises.
  - reflexivity.
Qed.

(** ** An image that is already [target_width] wide *)

(** [a / a] is exactly 1.0. *)
Lemma truediv_self (a : Z) :
  0 < a -> Float.truediv a a = Ok (S754_finite false 4503599627370496 (-52)).
Proof.
  intros Ha. unfold Float.truediv.
  destruct (Z.eqb_spec a 0) as [|_]; [lia|].
  destruct a as [|p|p]; try lia.
  cbn [Float.exact_int SFdiv xorb]. unfold SFdiv_core_binary. cbn [Zdigits2].
  set (d := Zpos (digits2_pos p)).
  replace (Z.min (fexp Float.prec Float.emax (d + 0 - (d + 0))) (0 - 0)) with (-53)
    by (unfold fexp, emin, Float.prec, Float.emax; lia).
  change (0 - 0 - -53) with 53. cbv iota.
  rewrite Z.shiftl_mul_pow2 by lia.
  assert (Hq : Z.div_eucl (Zpos p * 2 ^ 53) (Zpos p) = (2 ^ 53, 0)).
  { pose proof (Z.div_mul (2 ^ 53) (Zpos p) ltac:(lia)) as Hdiv.
    pose proof (Z.mod_mul (2 ^ 53) (Zpos p) ltac:(lia)) as Hmod.
    rewrite (Z.mul_comm (2 ^ 53)) in Hdiv, Hmod.
    unfold Z.div, Z.modulo in Hdiv, Hmod.
    destruct (Z.div_eucl (Zpos p * 2 ^ 53) (Zpos p)) as [q r]. congruence. }
  rewrite Hq.
  assert (Hloc : new_location (Zpos p) 0 = loc_Exact)
    by (unfold new_location; destruct (Z.even (Zpos p)); reflexivity).
  rewrite Hloc. reflexivity.
Qed.

(** The product of a normal number with 1.0 is that number. *)
Lemma mul_one (m : positive) (e : Z) :
  2 ^ 52 <= Zpos m < 2 ^ 53 -> -1022 <= e <= 971 ->
  Float.mul (S754_finite false m e) (S754_finite false 4503599627370496 (-52)) =
    S754_finite false m e.
Proof.
  intros Hm He. unfold Float.mul. cbn [SFmul xorb].
  rewrite Pos.mul_comm. cbn [Pos.mul].
  unfold binary_round_aux, shr_fexp.
  set (big := Zpos _).
  assert (Hbig : big = Zpos m * 2 ^ 52).
  { subst big. change (Zpos (4503599627370496 * m) = Zpos m * 2 ^ 52).
    rewrite Pos2Z.inj_mul. change (2 ^ 52) with 4503599627370496. apply Z.mul_comm. }
  assert (Hdig : Zdigits2 big = 105).
  { apply Zdigits2_unique; [reflexivity|]. rewrite Hbig.
    change (105 - 1) with (52 + 52). change 105 with (53 + 52).
    rewrite !Z.pow_add_r by lia.
    split; [apply Z.mul_le_mono_nonneg_r | apply Z.mul_lt_mono_pos_r]; lia. }
  rewrite Hdig. clear Hbig Hdig.
  replace (fexp Float.prec Float.emax (105 + (e + -52)) - (e + -52)) with 52
    by (unfold fexp, emin, Float.prec, Float.emax; lia).
  subst big. cbn [shr shr_record_of_loc iter_pos shr_1 orb Z.add].
  cbn [shr_m loc_of_shr_record round_nearest_even].
  rewrite (Zdigits2_unique (Zpos m) 53) by lia.
  replace (e + -52 + 52) with e by lia.
  replace (fexp Float.prec Float.emax (53 + e) - e) with 0
    by (unfold fexp, emin, Float.prec, Float.emax; lia).
  cbn [shr shr_record_of_loc shr_m].
  destruct (Z.leb_spec e (Float.emax - Float.prec)) as [_|H];
    [reflexivity | unfold Float.emax, Float.prec in H; lia].
Qed.

(** [int(height * (width / width))] is [height]: the quotient is 1.0 and
    the product with it is exact. *)
Lemma height_times_one (width height : Z) :
  0 < width -> 0 < height < 2 ^ 53 ->
  (ratio <- Float.truediv width width ;;
   h <- Float.of_int height ;;
   Float.to_int (Float.mul h ratio)) = Ok height.
Proof.
  intros Hw Hh.
  rewrite truediv_self by exact Hw. cbn [bind].
  destruct (of_int_exact height Hh) as (m & e & Hof & Hm & He & Hval).
  rewrite Hof. cbn [bind]. rewrite mul_one by lia.
  cbn [Float.to_int cond_Zopp bind].
  destruct (Z.leb_spec 0 e) as [H0|H0].
  - assert (e = 0) by lia. subst e.
    change (2 ^ (- 0)) with 1 in Hval. change (2 ^ 0) with 1.
    f_equal. lia.
  - rewrite Hval, Z.div_mul by (apply Z.pow_nonzero; lia). reflexivity.
Qed.

Lemma proportional_size_unfold (width height target_width : Z) (new_height : Z) :
  (ratio <- Float.truediv target_width width ;;
   h <- Float.of_int height ;;
   Float.to_int (Float.mul h ratio)) = Ok new_height ->
  proportional_size (width, height) target_width = Ok (target_width, new_height).
Proof.
  unfold proportional_size.
  destruct (Float.truediv target_width width) as [ratio|]; [|discriminate]. cbn [bind].
  destruct (Float.of_int height) as [h|]; [|discriminate]. cbn [bind].
  now intros ->.
Qed.

(** An image whose width is the target width keeps its height: the
    proportional resize is the identity on the size, for every size below
    [2 ^ 53]. *)
Theorem proportional_size_same_width (width height : Z) :
  0 < width -> 0 < height < 2 ^ 53 ->
  proportional_size (width, height) width = Ok (width, height).
Proof.
  intros Hw Hh. apply proportional_size_unfold. now apply height_times_one.
Qed.

(** A witness: a source of 800 x 300 at width 800. *)
Lemma proportional_size_same_width_witness :
  proportional_size (800, 300) 800 = Ok (800, 300).
Proof.
  apply proportional_size_same_width; vm_compute; intuition discriminate.
Defined.

(** An image that already has the target size is saved twice, unscaled:
    as the single crop [<base>.bmp] and as [<base>_resized.bmp]. *)
Theorem process_image_at_target_size
    (target_width target_height : Z) (act_data : list byte) (output_base : string) :
  0 < target_width -> 0 < target_height < 2 ^ 53 ->
  (768 <= len act_data)%nat ->
  summary (process_image (target_width, target_height) act_data output_base
             target_width target_height) =
    Ok [ (Crop (target_width, target_height) (0, 0, target_width, target_height),
          (output_base ++ ".bmp")%string);
         (ForcedFromResized (target_width, target_height) (target_width, target_height),
          (output_base ++ "_resized.bmp")%string) ].
Proof.
  intros Hw Hh Hact. unfold process_image.
  rewrite (proportional_size_unfold _ _ _ _ (height_times_one _ _ Hw Hh)). cbn [bind].
  rewrite load_act_palette_ok by exact Hact. cbn [bind].
  rewrite Z.leb_refl, Z.sub_diag.
  change (crop_positions 0) with (Ok [0]). reflexivity.
Qed.

(** A witness: a source of 800 x 480 for the target 800 x 480. *)
Lemma process_image_at_target_size_witness :
  summary (process_image (800, 480) blank_act "photo" 800 480) =
    Ok [ (Crop (800, 480) (0, 0, 800, 480), ("photo" ++ ".bmp")%string);
         (ForcedFromResized (800, 480) (800, 480), ("photo" ++ "_resized.bmp")%string) ].
Proof.
  apply process_image_at_target_size.
  - vm_compute; reflexivity.
  - vm_compute; split; reflexivity.
  - unfold blank_act. rewrite repeat_length. apply Nat.le_refl.
Defined.

(** ** The batch conversion of [diterrepo.py] *)

Lemma string_length_append (s t : string) :
  String.length (s ++ t) = (String.length s + String.length t)%nat.
Proof. induction s as [|c s IH]; cbn; [reflexivity | now rewrite IH]. Qed.

Lemma string_append_assoc (s t u : string) : ((s ++ t) ++ u = s ++ (t ++ u))%string.
Proof. induction s as [|c s IH]; cbn; [reflexivity | now rewrite IH]. Qed.

Lemma substring_append (s t : string) (n : nat) :
  substring (String.length s) n (s ++ t) = substring 0 n t.
Proof. induction s as [|c s IH]; cbn; [reflexivity | exact IH]. Qed.

(** A string ends with the suffix it was built from. *)
Lemma endswith_append (s suffix : string) : endswith (s ++ suffix) suffix = true.
Proof.
  unfold endswith. rewrite string_length_append.
  replace (String.length s + String.length suffix - String.length suffix)%nat
    with (String.length s) by lia.
  rewrite substring_append.
  assert (Hsub : substring 0 (String.length suffix) suffix = suffix)
    by (apply prefix_correct; clear; induction suffix as [|c t IH]; cbn;
        [reflexivity | destruct (ascii_dec c c); [exact IH | congruence]]).
  rewrite Hsub, String.eqb_refl.
  apply andb_true_iff. split; [apply Nat.leb_le; lia | reflexivity].
Qed.

(** A string and its non-empty suffix end with the same character. *)
Lemma endswith_last_char (s suffix : string) :
  endswith s suffix = true -> suffix <> ""%string ->
  get (String.length s - 1) s = get (String.length suffix - 1) suffix.
Proof.
  unfold endswith. intros H Hne.
  apply andb_true_iff in H. destruct H as [Hle Heq].
  apply Nat.leb_le in Hle. apply String.eqb_eq in Heq.
  assert (0 < String.length suffix)%nat by (destruct suffix; [congruence | cbn; lia]).
  rewrite <- Heq at 2.
  rewrite substring_correct1 by lia. f_equal. lia.
Qed.

Lemma lower_length (s : string) : String.length (lower s) = String.length s.
Proof. induction s as [|c s IH]; cbn; [reflexivity | now rewrite IH]. Qed.

Lemma lower_get (s : string) (n : nat) :
  get n (lower s) = option_map lower_ascii (get n s).
Proof.
  revert n. induction s as [|c s IH]; intros n; [reflexivity|].
  destruct n as [|n]; cbn; [reflexivity | apply IH].
Qed.

(** No name that ends in ".bmp" passes the test of the extension. *)
Lemma is_jpeg_not_bmp (f : string) : is_jpeg f = true -> endswith f ".bmp" = false.
Proof.
  intros Hjpeg. destruct (endswith f ".bmp") eqn:Hbmp; [|reflexivity].
  apply endswith_last_char in Hbmp; [|discriminate].
  assert (Hg : get (String.length (lower f) - 1) (lower f) = Some "g"%char).
  { unfold is_jpeg in Hjpeg. apply orb_true_iff in Hjpeg.
    destruct Hjpeg as [H|H]; apply endswith_last_char in H; try discriminate; exact H. }
  rewrite lower_length, lower_get, Hbmp in Hg. discriminate Hg.
Qed.

(** [str] is one to one. *)
Lemma str_inj (i j : nat) : str i = str j -> i = j.
Proof.
  unfold str. intros H. apply Unsigned.to_uint_inj.
  apply (f_equal NilEmpty.uint_of_string) in H.
  rewrite !NilEmpty.usu in H. congruence.
Qed.

(** [str i] is not empty and does not start with a slash. *)
Lemma str_no_slash (i : nat) (s : string) : startswith (str i ++ s) "/" = false.
Proof.
  unfold str, startswith.
  destruct (Nat.to_uint i) as [|d|d|d|d|d|d|d|d|d|d] eqn:E; try reflexivity.
  pose proof (f_equal Nat.of_uint E) as E'. rewrite Unsigned.of_to in E'.
  subst i. discriminate E.
Qed.

(** [os.path.join(directory, _)] is one to one on relative names. *)
Lemma path_join_inj (directory a b : string) :
  startswith a "/" = false -> startswith b "/" = false ->
  path_join directory a = path_join directory b -> a = b.
Proof.
  unfold path_join. intros -> ->.
  destruct (String.eqb directory "" || endswith directory "/"); intros H.
  - now apply append_inj_l in H.
  - apply append_inj_l in H. now apply (append_inj_l "/") in H.
Qed.

Lemma combine_seq_out_names {A B : Type} (g : nat * A -> B) (h : nat -> B)
    (start : nat) (l : list A) :
  (forall i a, g (i, a) = h i) ->
  map g (combine (seq start (len l)) l) = map h (seq start (len l)).
Proof.
  intros Hg. revert start. induction l as [|a l IH]; intros start; [reflexivity|].
  cbn. now rewrite Hg, IH.
Qed.

(** With a palette file of at least 768 bytes the batch writes one file
    per JPEG entry of the listing, and no two of them under the same name:
    no output overwrites another. *)
Theorem batch_output_names_distinct
    (listing : list string) (act_data : list byte) (directory : string)
    (target_width target_height : Z) :
  (768 <= len act_data)%nat ->
  exists plan,
    process_images_in_directory listing act_data directory target_width target_height =
      Ok plan /\
    len plan = len (filter is_jpeg listing) /\
    NoDup (map (fun entry => out_name (snd entry)) plan).
Proof.
  intros Hact. unfold process_images_in_directory.
  rewrite load_act_palette_ok by exact Hact. cbn [bind].
  eexists. split; [reflexivity|].
  set (images := filter is_jpeg listing).
  split.
  - rewrite length_map, length_combine, length_seq. apply Nat.min_id.
  - rewrite map_map.
    rewrite (combine_seq_out_names _ (fun i => path_join directory (str i ++ ".bmp")))
      by reflexivity.
    apply NoDup_map_NoDup_ForallPairs; [|apply seq_NoDup].
    intros i j _ _ Heq.
    apply path_join_inj in Heq; try apply str_no_slash.
    apply str_inj.
    revert Heq. generalize (str i) (str j). clear.
    induction s as [|c s IH]; intros [|d t] H; cbn in H; try reflexivity.
    + exfalso. apply (f_equal String.length) in H. cbn in H.
      rewrite string_length_append in H. cbn in H. lia.
    + exfalso. apply (f_equal String.length) in H. cbn in H.
      rewrite string_length_append in H. cbn in H. lia.
    + injection H as -> H. f_equal. now apply IH.
Qed.

(** A witness: a listing of three entries, two of them JPEG files. *)
Lemma batch_output_names_distinct_witness :
  exists plan,
    process_images_in_directory ["a.JPG"; "notes.txt"; "b.jpeg"]%string blank_act "repo" 800 480 =
      Ok plan /\
    len plan = len (filter is_jpeg ["a.JPG"; "notes.txt"; "b.jpeg"]%string) /\
    NoDup (map (fun entry => out_name (snd entry)) plan).
Proof.
  apply batch_output_names_distinct.
  unfold blank_act. rewrite repeat_length. apply Nat.le_refl.
Defined.

(** Every file the batch writes has a name that ends in ".bmp", and the
    entries of the listing that end in ".bmp" never matter: without them
    the batch does the same.  So the files of one run, written into the
    directory that is listed, are not inputs of the next run. *)
Theorem batch_outputs_not_inputs
    (listing : list string) (act_data : list byte) (directory : string)
    (target_width target_height : Z) :
  (forall plan,
     process_images_in_directory listing act_data directory target_width target_height =
       Ok plan ->
     Forall (fun entry => endswith (out_name (snd entry)) ".bmp" = true) plan) /\
  process_images_in_directory
    (filter (fun f => negb (endswith f ".bmp")) listing)
    act_data directory target_width target_height =
  process_images_in_directory listing act_data directory target_width target_height.
Proof.
  split.
  - intros plan. unfold process_images_in_directory.
    destruct (load_act_palette act_data) as [palette|e]; [|discriminate].
    cbn [bind]. intros H. injection H as <-.
    apply Forall_forall. intros entry Hin.
    apply in_map_iff in Hin. destruct Hin as ((i & name) & <- & _).
    cbn [snd out_name]. unfold path_join.
    rewrite str_no_slash.
    destruct (String.eqb directory "" || endswith directory "/").
    + rewrite <- string_append_assoc. apply endswith_append.
    + rewrite <- !string_append_assoc. apply endswith_append.
  - unfold process_images_in_directory.
    assert (Hfilter : filter is_jpeg (filter (fun f => negb (endswith f ".bmp")) listing) =
                      filter is_jpeg listing).
    { induction listing as [|f rest IH]; [reflexivity|]. cbn [filter].
      destruct (is_jpeg f) eqn:Hf.
      - rewrite (is_jpeg_not_bmp f Hf). cbn [negb filter]. rewrite Hf. now f_equal.
      - destruct (negb (endswith f ".bmp")); [cbn [filter]; rewrite Hf|]; exact IH. }
    now rewrite Hfilter.
Qed.

(** ** The label search of [vitrail-deepseek.py] *)

(** In [uint8] a square is 0 exactly for the multiples of 16. *)
Lemma uint8_square_zero (d : Z) :
  0 <= d < 256 -> (uint8 (d * d) = 0 <-> d mod 16 = 0).
Proof.
  intros Hd.
  assert (Hall : forallb (fun n => Bool.eqb (uint8 (Z.of_nat n * Z.of_nat n) =? 0)
                                            (Z.of_nat n mod 16 =? 0))
                         (seq 0 256) = true) by (vm_compute; reflexivity).
  rewrite forallb_forall in Hall.
  specialize (Hall (Z.to_nat d)).
  rewrite in_seq, Z2Nat.id in Hall by lia.
  specialize (Hall ltac:(lia)).
  apply eqb_prop in Hall.
  rewrite <- !Z.eqb_eq, Hall. reflexivity.
Qed.

Lemma uint8_range (z : Z) : 0 <= uint8 z < 256.
Proof. unfold uint8, wrap_unsigned. apply Z.mod_pos_bound. reflexivity. Qed.

Lemma uint8_mod_16 (z : Z) : uint8 z mod 16 = z mod 16.
Proof.
  unfold uint8, wrap_unsigned.
  apply Z.mod_mod_divide. now exists 16.
Qed.

(** The distance of the label search is the plain sum of the three wrapped
    squares: the sum itself never wraps. *)
Lemma lab_distance_sum (pixel entry : color) :
  lab_distance pixel entry =
    let '(p0, p1, p2) := pixel in
    let '(c0, c1, c2) := entry in
    let sq a b := uint8 (uint8 (byte.unsigned a - byte.unsigned b) *
                         uint8 (byte.unsigned a - byte.unsigned b)) in
    sq p0 c0 + sq p1 c1 + sq p2 c2.
Proof.
  destruct pixel as [[p0 p1] p2], entry as [[c0 c1] c2]. unfold lab_distance.
  cbv zeta.
  set (s0 := uint8 (uint8 (byte.unsigned p0 - _) * _)).
  set (s1 := uint8 (uint8 (byte.unsigned p1 - _) * _)).
  set (s2 := uint8 (uint8 (byte.unsigned p2 - _) * _)).
  pose proof (uint8_range (uint8 (byte.unsigned p0 - byte.unsigned c0) *
                           uint8 (byte.unsigned p0 - byte.unsigned c0))) as H0.
  pose proof (uint8_range (uint8 (byte.unsigned p1 - byte.unsigned c1) *
                           uint8 (byte.unsigned p1 - byte.unsigned c1))) as H1.
  pose proof (uint8_range (uint8 (byte.unsigned p2 - byte.unsigned c2) *
                           uint8 (byte.unsigned p2 - byte.unsigned c2))) as H2.
  fold s0 in H0. fold s1 in H1. fold s2 in H2.
  assert (H64 : 2 ^ 64 = 18446744073709551616) by reflexivity.
  unfold uint64, wrap_unsigned.
  rewrite (Z.mod_small (s0 + s1)) by lia.
  apply Z.mod_small. lia.
Qed.

Lemma lab_distance_range (pixel entry : color) : 0 <= lab_distance pixel entry < 768.
Proof.
  rewrite lab_distance_sum.
  destruct pixel as [[p0 p1] p2], entry as [[c0 c1] c2]. cbv zeta.
  pose proof (uint8_range (uint8 (byte.unsigned p0 - byte.unsigned c0) *
                           uint8 (byte.unsigned p0 - byte.unsigned c0))).
  pose proof (uint8_range (uint8 (byte.unsigned p1 - byte.unsigned c1) *
                           uint8 (byte.unsigned p1 - byte.unsigned c1))).
  pose proof (uint8_range (uint8 (byte.unsigned p2 - byte.unsigned c2) *
                           uint8 (byte.unsigned p2 - byte.unsigned c2))).
  lia.
Qed.

Lemma lab_distance_zero (pixel entry : color) :
  lab_distance pixel entry = 0 <-> congruent_mod_16 pixel entry.
Proof.
  rewrite lab_distance_sum.
  destruct pixel as [[p0 p1] p2], entry as [[c0 c1] c2]. cbv zeta.
  unfold congruent_mod_16.
  set (d0 := uint8 (byte.unsigned p0 - byte.unsigned c0)).
  set (d1 := uint8 (byte.unsigned p1 - byte.unsigned c1)).
  set (d2 := uint8 (byte.unsigned p2 - byte.unsigned c2)).
  pose proof (uint8_range (d0 * d0)) as H0.
  pose proof (uint8_range (d1 * d1)) as H1.
  pose proof (uint8_range (d2 * d2)) as H2.
  pose proof (uint8_square_zero d0 (uint8_range _)) as Z0.
  pose proof (uint8_square_zero d1 (uint8_range _)) as Z1.
  pose proof (uint8_square_zero d2 (uint8_range _)) as Z2.
  unfold d0 in Z0 at 3. unfold d1 in Z1 at 3. unfold d2 in Z2 at 3.
  rewrite uint8_mod_16 in Z0, Z1, Z2.
  rewrite <- Z0, <- Z1, <- Z2. lia.
Qed.

(** The distance of the label search is never negative and stays below
    [3 * 256], and it is 0 exactly when every channel of the pixel differs
    from the entry's by a multiple of 16: the difference and its square are
    taken in [uint8].  So a distance of 0 does not mean equal colours. *)
Theorem lab_distance_zero_iff (pixel entry : color) :
  0 <= lab_distance pixel entry < 768 /\
  (lab_distance pixel entry = 0 <-> congruent_mod_16 pixel entry).
Proof. split; [apply lab_distance_range | apply lab_distance_zero]. Qed.

(** When some entry of the palette agrees with the pixel modulo 16 in every
    channel (the pixel's own colour, for one), the label is the index of
    the first such entry. *)
Theorem label_first_congruent (custom_palette_lab : list color) (pixel : color) (j : nat) :
  (j < len custom_palette_lab)%nat ->
  congruent_mod_16 pixel (nth j custom_palette_lab black) ->
  exists k,
    label custom_palette_lab pixel = Ok k /\ (k <= j)%nat /\
    congruent_mod_16 pixel (nth k custom_palette_lab black) /\
    (forall i, (i < k)%nat -> ~ congruent_mod_16 pixel (nth i custom_palette_lab black)).
Proof.
  intros Hj Hcong. unfold label.
  set (f := fun entry => lab_distance pixel entry).
  destruct (argmin_first_least (map f custom_palette_lab)) as (k & Hk & Hlen & Hleast & Hfirst).
  { destruct custom_palette_lab; [cbn in Hj; lia | discriminate]. }
  rewrite length_map in Hlen, Hleast.
  assert (Hn : forall i, (i < len custom_palette_lab)%nat ->
                         nth i (map f custom_palette_lab) 0 =
                         lab_distance pixel (nth i custom_palette_lab black)).
  { intros i Hi. rewrite (nth_indep _ 0 (f black)) by (rewrite length_map; exact Hi).
    apply (map_nth f). }
  assert (Hzero : lab_distance pixel (nth k custom_palette_lab black) = 0).
  { specialize (Hleast j Hj). rewrite !Hn in Hleast by assumption.
    apply lab_distance_zero in Hcong.
    pose proof (lab_distance_range pixel (nth k custom_palette_lab black)).
    lia. }
  exists k. split; [exact Hk|]. repeat split.
  - destruct (Nat.le_gt_cases k j) as [H|H]; [exact H|].
    specialize (Hfirst j H). rewrite !Hn in Hfirst by assumption.
    apply lab_distance_zero in Hcong. lia.
  - now apply lab_distance_zero.
  - intros i Hi Hc. specialize (Hfirst i Hi). rewrite !Hn in Hfirst by lia.
    apply lab_distance_zero in Hc. lia.
Qed.

(** A witness: the pixel (16, 32, 48) is an entry of the palette, at index
    1, and agrees with black modulo 16; its label is 0. *)
Lemma label_first_congruent_witness :
  exists k,
    label [black; (x10, x20, x30)] (x10, x20, x30) = Ok k /\ (k <= 1)%nat /\
    congruent_mod_16 (x10, x20, x30) (nth k [black; (x10, x20, x30)] black) /\
    (forall i, (i < k)%nat ->
               ~ congruent_mod_16 (x10, x20, x30) (nth i [black; (x10, x20, x30)] black)).
Proof.
  apply (label_first_congruent [black; (x10, x20, x30)] (x10, x20, x30) 1).
  - cbn. lia.
  - vm_compute. repeat split.
Defined.
